(** * Cookie jar and header composition of the Cronet client

    A shallow embedding of the cookie/header core of [cronet_client.py]:
    [_parse_set_cookie], [_domain_matches], and the methods
    [cookies], [get_cookies_for_domain], [_prepare_headers],
    [_update_cookies_from_response] and [request] of [AsyncCronetClient]
    (the synchronous [CronetClient] carries the same code verbatim).
    Around this core: the body encoding [_prepare_content] with the
    decoding of a response body, the reading of the remote answer in
    [request] ([request_response]), [Response.raise_for_status], and the
    session methods [_create_session] and [close].

    Conventions of the embedding.
    - A Python [str] is a [string]; a character is a code point below 256,
      so [ascii] stands for the Latin-1 range, on which [str.lower] and
      [str.strip] are modelled exactly.
    - A Python [dict] is an association list in insertion order: assignment
      to an existing key keeps its position, a new key goes to the end.
    - The per-domain cookie dicts are mutable objects; they live in a heap
      and the store maps a domain to the address of its dict.
    - Code that can raise runs in an error monad ([result]) or in a state
      and error monad ([M]). *)

From Stdlib Require Import String Ascii List Arith Bool Lia ZArith.
Import ListNotations.
Local Open Scope string_scope.
Local Open Scope list_scope.
Local Open Scope nat_scope.

(** ** Python strings *)

Module PyStr.

(** [str.isspace] on one code point below 256. *)
Definition is_space (c : ascii) : bool :=
  let n := nat_of_ascii c in
  ((9 <=? n) && (n <=? 13)) || ((28 <=? n) && (n <=? 32))
  || (n =? 133) || (n =? 160).

(** [str.lower] on one code point below 256: A-Z and the Latin-1 capitals
    (all of 192..222 but the multiplication sign 215) move up by 32. *)
Definition lower_char (c : ascii) : ascii :=
  let n := nat_of_ascii c in
  if ((65 <=? n) && (n <=? 90))
     || ((192 <=? n) && (n <=? 222) && negb (n =? 215))
  then ascii_of_nat (n + 32) else c.

(** [s.lower()] *)
Fixpoint lower (s : string) : string :=
  match s with
  | EmptyString => EmptyString
  | String c r => String (lower_char c) (lower r)
  end.

Fixpoint lstrip (s : string) : string :=
  match s with
  | EmptyString => EmptyString
  | String c r => if is_space c then lstrip r else s
  end.

Fixpoint rstrip (s : string) : string :=
  match s with
  | EmptyString => EmptyString
  | String c r =>
      match rstrip r with
      | EmptyString => if is_space c then EmptyString else String c EmptyString
      | r' => String c r'
      end
  end.

(** [s.strip()] *)
Definition strip (s : string) : string := rstrip (lstrip s).

(** [c in s] for a one-character [c]. *)
Fixpoint contains (c : ascii) (s : string) : bool :=
  match s with
  | EmptyString => false
  | String a r => Ascii.eqb a c || contains c r
  end.

(** [s.split(sep)] for a one-character [sep]; the result is never empty. *)
Fixpoint split (sep : ascii) (s : string) : list string :=
  match s with
  | EmptyString => [EmptyString]
  | String c r =>
      if Ascii.eqb c sep then EmptyString :: split sep r
      else match split sep r with
           | h :: t => String c h :: t
           | [] => [String c EmptyString]
           end
  end.

(** The text before and after the first [sep], when there is one. *)
Fixpoint cut (sep : ascii) (s : string) : option (string * string) :=
  match s with
  | EmptyString => None
  | String c r =>
      if Ascii.eqb c sep then Some (EmptyString, r)
      else match cut sep r with
           | Some (a, b) => Some (String c a, b)
           | None => None
           end
  end.

(** [s.split(sep, 1)] for a one-character [sep]: one or two pieces. *)
Definition split1 (sep : ascii) (s : string) : list string :=
  match cut sep s with
  | Some (a, b) => [a; b]
  | None => [s]
  end.

(** [s.startswith(p)] *)
Definition startswith (s p : string) : bool := String.prefix p s.

(** [s.endswith(suf)] *)
Fixpoint endswith (s suf : string) : bool :=
  String.eqb s suf
  || match s with
     | EmptyString => false
     | String _ r => endswith r suf
     end.

(** [s[1:]] *)
Definition tail (s : string) : string :=
  match s with
  | EmptyString => EmptyString
  | String _ r => r
  end.

(** [sep.join(l)] *)
Definition join (sep : string) (l : list string) : string :=
  String.concat sep l.

(** Truth value of a string: [if s:] holds for a non-empty [s]. *)
Definition truthy (s : string) : bool :=
  match s with
  | EmptyString => false
  | String _ _ => true
  end.

End PyStr.
Import PyStr.

(** ** Python dicts, in insertion order *)

Section Dict.
Context {V : Type}.

Definition dict := list (string * V).

(** [d.get(k)] *)
Fixpoint dict_get (k : string) (d : dict) : option V :=
  match d with
  | [] => None
  | (k', v) :: r => if String.eqb k k' then Some v else dict_get k r
  end.

(** [k in d] *)
Definition dict_mem (k : string) (d : dict) : bool :=
  match dict_get k d with
  | Some _ => true
  | None => false
  end.

(** [d[k] = v] *)
Fixpoint dict_set (k : string) (v : V) (d : dict) : dict :=
  match d with
  | [] => [(k, v)]
  | (k', v') :: r =>
      if String.eqb k k' then (k', v) :: r else (k', v') :: dict_set k v r
  end.

(** [d.update(other)] *)
Definition dict_update (d other : dict) : dict :=
  fold_left (fun acc kv => dict_set (fst kv) (snd kv) acc) other d.

(** Truth value of a dict: [if d:] holds for a non-empty [d]. *)
Definition nonempty (d : dict) : bool :=
  match d with
  | [] => false
  | _ :: _ => true
  end.

Definition keys (d : dict) : list string := map fst d.

End Dict.
Arguments dict V : clear implicits.

Definition CookieMap := dict string.

(** ** Exceptions *)

(** The exceptions the modelled code can raise.  [MemoryFault] has no Python
    counterpart: it is what reading an address outside the heap gives, which
    well-formed states exclude. *)
Inductive exn : Type :=
| RequestError
| ValueError
| IndexError
| KeyError
| MemoryFault.

Inductive result (A : Type) : Type :=
| Ok (a : A)
| Raise (e : exn).
Arguments Ok {A} a.
Arguments Raise {A} e.

(** ** Module-level functions *)

(** The search for the [Domain] attribute in [parts[1:]]: the first segment
    that starts with [domain=] decides ([break]). *)
Fixpoint find_domain (parts : list string) : result string :=
  match parts with
  | [] => Ok ""
  | part :: rest =>
      let part := strip part in
      if startswith (lower part) "domain=" then
        match nth_error (split1 "=" part) 1 with
        | Some d =>
            let domain := lower (strip d) in
            Ok (if startswith domain "." then tail domain else domain)
        | None => Raise IndexError
        end
      else find_domain rest
  end.

(** The body of the loop of [_parse_set_cookie] for one [value]: the parsed
    cookies it appends (none or one). *)
Definition parse_value (value : string)
  : result (list (string * string * string)) :=
  if contains "=" value then
    match split ";" value with
    | [] => Raise IndexError
    | part0 :: parts1 =>
        let cookie_part := strip part0 in
        if contains "=" cookie_part then
          match split1 "=" cookie_part with
          | [name; val] =>
              let name := strip name in
              let val := strip val in
              match find_domain parts1 with
              | Ok domain => Ok [(name, val, domain)]
              | Raise e => Raise e
              end
          | _ => Raise ValueError
          end
        else Ok []
    end
  else Ok [].

Fixpoint _parse_set_cookie (set_cookie_values : list string)
  : result (list (string * string * string)) :=
  match set_cookie_values with
  | [] => Ok []
  | value :: rest =>
      match parse_value value with
      | Ok cs =>
          match _parse_set_cookie rest with
          | Ok cookies => Ok (cs ++ cookies)
          | Raise e => Raise e
          end
      | Raise e => Raise e
      end
  end.

Definition _domain_matches (cookie_domain request_domain : string) : bool :=
  if negb (truthy cookie_domain) then false
  else
    let request_domain := lower request_domain in
    let cookie_domain := lower cookie_domain in
    if String.eqb request_domain cookie_domain then true
    else if endswith request_domain ("." ++ cookie_domain) then true
    else false.

(** ** The client: state, heap and monad *)

Definition loc := nat.

(** What is posted to the remote service for one request; the method and the
    hex-encoded body are transport plumbing and are left out. *)
Record payload : Type := mkPayload {
  p_url : string;
  p_headers : list (string * string)
}.

(** The heap of cookie dicts, and the fields of one client instance:
    [self.session_id], [self._cookies] (domain to the address of its dict),
    and the payloads posted so far, oldest first. *)
Record state : Type := mkState {
  heap : list CookieMap;
  session_id : option string;
  _cookies : dict loc;
  wire : list payload
}.

Definition with_heap (h : list CookieMap) (s : state) : state :=
  mkState h (session_id s) (_cookies s) (wire s).

Definition with_cookies (c : dict loc) (s : state) : state :=
  mkState (heap s) (session_id s) c (wire s).

Definition with_wire (w : list payload) (s : state) : state :=
  mkState (heap s) (session_id s) (_cookies s) w.

Inductive outcome (A : Type) : Type :=
| Done (a : A) (s : state)
| Fail (e : exn) (s : state).
Arguments Done {A} a s.
Arguments Fail {A} e s.

Definition M (A : Type) : Type := state -> outcome A.

Definition ret {A} (a : A) : M A := fun s => Done a s.

Definition bind {A B} (m : M A) (k : A -> M B) : M B :=
  fun s => match m s with
           | Done a s' => k a s'
           | Fail e s' => Fail e s'
           end.

Definition raise {A} (e : exn) : M A := fun s => Fail e s.

Definition gets {A} (f : state -> A) : M A := fun s => Done (f s) s.

Definition modify (f : state -> state) : M unit := fun s => Done tt (f s).

Definition lift {A} (r : result A) : M A :=
  match r with
  | Ok a => ret a
  | Raise e => raise e
  end.

Declare Scope py_scope.
Delimit Scope py_scope with py.
Notation "x <- c1 ;; c2" := (bind c1 (fun x => c2))
  (at level 61, c1 at next level, right associativity) : py_scope.
Notation "c1 ;; c2" := (bind c1 (fun _ => c2))
  (at level 61, right associativity) : py_scope.
Local Open Scope py_scope.

(** [for x in l: body x] *)
Fixpoint for_each {A} (l : list A) (body : A -> M unit) : M unit :=
  match l with
  | [] => ret tt
  | x :: r => body x ;; for_each r body
  end.

(** A [for] loop that updates a local variable [acc]. *)
Fixpoint for_acc {A B} (l : list A) (acc : B) (body : B -> A -> M B) : M B :=
  match l with
  | [] => ret acc
  | x :: r => acc' <- body acc x ;; for_acc r acc' body
  end.

(** Any exception of the [try] block of [request] leaves as [RequestError]. *)
Definition try_request_error {A} (m : M A) : M A :=
  fun s => match m s with
           | Done a s' => Done a s'
           | Fail _ s' => Fail RequestError s'
           end.

(** *** Dict objects *)

(** A new dict object with the entries [d]: [{}] is [new_dict []]. *)
Definition new_dict (d : CookieMap) : M loc :=
  fun s => Done (length (heap s)) (with_heap (heap s ++ [d]) s).

(** The entries of the dict at [l]. *)
Definition deref (l : loc) : M CookieMap :=
  fun s => match nth_error (heap s) l with
           | Some d => Done d s
           | None => Fail MemoryFault s
           end.

Fixpoint list_set {A} (i : nat) (x : A) (l : list A) : list A :=
  match l, i with
  | [], _ => []
  | _ :: r, 0 => x :: r
  | y :: r, S j => y :: list_set j x r
  end.

(** Replace the entries of the dict at [l]. *)
Definition assign (l : loc) (d : CookieMap) : M unit :=
  fun s => if l <? length (heap s)
           then Done tt (with_heap (list_set l d (heap s)) s)
           else Fail MemoryFault s.

(** [obj[k] = v] for the dict object at [l]. *)
Definition setitem (l : loc) (k v : string) : M unit :=
  d <- deref l ;; assign l (dict_set k v d).

(** [obj.update(other)] for the dict objects at [l] and [other]. *)
Definition update (l other : loc) : M unit :=
  d <- deref l ;; o <- deref other ;; assign l (dict_update d o).

(** [obj.copy()] *)
Definition copy (l : loc) : M loc :=
  d <- deref l ;; new_dict d.

(** [self._cookies[domain]]: [KeyError] when the domain is not a key. *)
Definition cookies_item (domain : string) : M loc :=
  cs <- gets _cookies ;;
  match dict_get domain cs with
  | Some l => ret l
  | None => raise KeyError
  end.

(** [if domain not in self._cookies: self._cookies[domain] = {}] *)
Definition ensure_domain (domain : string) : M unit :=
  cs <- gets _cookies ;;
  if negb (dict_mem domain cs) then
    l <- new_dict [] ;;
    modify (fun s => with_cookies (dict_set domain l (_cookies s)) s)
  else ret tt.

(** *** Methods of the client *)

(** The property [cookies]: a new dict of copies. *)
Definition cookies : M (dict loc) :=
  cs <- gets _cookies ;;
  for_acc cs [] (fun acc item =>
    let '(domain, l) := item in
    l' <- copy l ;;
    ret (dict_set domain l' acc)).

Definition get_cookies_for_domain (domain : string) : M loc :=
  dflt <- new_dict [] ;;
  cs <- gets _cookies ;;
  match dict_get (lower domain) cs with
  | Some l => copy l
  | None => copy dflt
  end.

(** [HeadersType]: a dict or a list of pairs; [None] is allowed too. *)
Inductive HeadersType : Type :=
| HDict (d : dict string)
| HList (l : list (string * string)).

Definition headers_list (headers : option HeadersType)
  : list (string * string) :=
  match headers with
  | None => []
  | Some (HDict d) => d
  | Some (HList l) => l
  end.

(** Truth value of [cookies : Optional[CookiesType]]. *)
Definition cookies_truthy (cookies : option loc) : M bool :=
  match cookies with
  | None => ret false
  | Some c => d <- deref c ;; ret (nonempty d)
  end.

(** [f"{k}={v}"] *)
Definition cookie_pair (kv : string * string) : string :=
  (fst kv ++ "=" ++ snd kv)%string.

Definition _prepare_headers (headers : option HeadersType)
    (cookies : option loc) (domain : string) : M (list (string * string)) :=
  let headers_list := headers_list headers in
  let '(normal_headers, priority_headers) :=
    fold_left (fun acc kv =>
      let '(normal_headers, priority_headers) := acc in
      let '(k, v) := kv in
      let k_lower := lower k in
      if String.eqb k_lower "cookie" then acc
      else if String.eqb k_lower "priority"
      then (normal_headers, priority_headers ++ [(k, v)])
      else (normal_headers ++ [(k, v)], priority_headers))
      headers_list ([], []) in
  cs <- gets _cookies ;;
  merged_cookies <-
    for_acc cs [] (fun merged_cookies item =>
      let '(cookie_domain, l) := item in
      if String.eqb cookie_domain domain
         || _domain_matches cookie_domain domain
      then domain_cookies <- deref l ;;
           ret (dict_update merged_cookies domain_cookies)
      else ret merged_cookies) ;;
  given <- cookies_truthy cookies ;;
  merged_cookies <-
    (if given then
       match cookies with
       | Some c => d <- deref c ;; ret (dict_update merged_cookies d)
       | None => ret merged_cookies
       end
     else ret merged_cookies) ;;
  let result := normal_headers in
  let result :=
    if nonempty merged_cookies then
      let cookie_str :=
        join "; " (map cookie_pair merged_cookies) in
      result ++ [("cookie", cookie_str)]
    else result in
  ret (result ++ priority_headers).

Definition _update_cookies_from_response (headers : dict (list string))
    (request_domain : string) : M unit :=
  for_each headers (fun item =>
    let '(name, values) := item in
    if String.eqb (lower name) "set-cookie" then
      parsed_cookies <- lift (_parse_set_cookie values) ;;
      for_each parsed_cookies (fun c =>
        let '(cookie_name, cookie_value, cookie_domain) := c in
        let store_domain :=
          if truthy cookie_domain then cookie_domain else request_domain in
        ensure_domain store_domain ;;
        l <- cookies_item store_domain ;;
        setitem l cookie_name cookie_value)
    else ret tt).

(** Which of [json_data], [data] and [content] carries the body. *)
Inductive BodyArg : Type :=
| BodyJson
| BodyData
| BodyContent.

(** The start of [request] after the domain is known: given cookies go to
    the store, under the request domain. *)
Definition persist_cookies (domain : string) (cookies : option loc)
  : M unit :=
  given <- cookies_truthy cookies ;;
  if given then
    match cookies with
    | Some c =>
        ensure_domain domain ;;
        l <- cookies_item domain ;;
        update l c
    | None => ret tt
    end
  else ret tt.

(** The [json_data] and [data] branches of [request]: a [content-type]
    header is appended unless the caller gave one. *)
Definition content_type_added (body : BodyArg)
    (headers : list (string * string)) : list (string * string) :=
  let has_content_type :=
    existsb (fun kv => String.eqb (lower (fst kv)) "content-type")
            headers in
  match body with
  | BodyJson =>
      if negb has_content_type
      then headers ++ [("content-type", "application/json")]
      else headers
  | BodyData =>
      if negb has_content_type
      then headers ++ [("content-type", "application/x-www-form-urlencoded")]
      else headers
  | BodyContent => headers
  end.

Section Request.

(** [urlparse(url).netloc] of the Python standard library, which raises
    [ValueError] on some malformed URLs. *)
Variable netloc : string -> result string.

Definition _extract_domain (url : string) : result string :=
  match netloc url with
  | Ok n => Ok (lower n)
  | Raise e => Raise e
  end.

(** [request]; [reply] is what the remote service answers: the response
    headers, or [None] for a failed call or a [success: false] answer.
    The encoding of the request body and the decoding of the response body
    are transport plumbing and are left out. *)
Definition request (url : string) (headers : option HeadersType)
    (cookies : option loc) (body : BodyArg)
    (reply : option (dict (list string))) : M (dict (list string)) :=
  sid <- gets session_id ;;
  if negb (match sid with Some i => truthy i | None => false end)
  then raise RequestError
  else
    domain <- lift (_extract_domain url) ;;
    persist_cookies domain cookies ;;
    let headers := content_type_added body (headers_list headers) in
    prepared <- _prepare_headers (Some (HList headers)) cookies domain ;;
    try_request_error (
      modify (fun s => with_wire (wire s ++ [mkPayload url prepared]) s) ;;
      match reply with
      | None => raise RequestError
      | Some resp_headers =>
          _update_cookies_from_response resp_headers domain ;;
          ret resp_headers
      end).

End Request.

(** ** Notions used to state the properties *)

(** The store as the mapping it stands for: each domain with the entries of
    its dict. *)
Definition store_view (s : state) : dict CookieMap :=
  map (fun item => (fst item, nth (snd item) (heap s) [])) (_cookies s).

(** The addresses of the dicts the store owns. *)
Definition store_locs (s : state) : list loc := map snd (_cookies s).

(** Well-formed client states: the store and every dict have distinct keys,
    distinct domains have distinct dict objects, and these are in the heap. *)
Definition wf (s : state) : Prop :=
  NoDup (keys (_cookies s))
  /\ NoDup (store_locs s)
  /\ Forall (fun l => l < length (heap s)) (store_locs s)
  /\ Forall (fun d : CookieMap => NoDup (keys d)) (heap s).

(** A [cookies] argument is [None] or a dict of the caller, not of the store. *)
Definition arg_ok (s : state) (cookies : option loc) : Prop :=
  match cookies with
  | None => True
  | Some c => c < length (heap s) /\ ~ In c (store_locs s)
  end.

(** The store can be read: its dicts are in the heap. *)
Definition closed (s : state) : Prop :=
  Forall (fun l => l < length (heap s)) (store_locs s).

(** A [cookies] argument can be read. *)
Definition readable (s : state) (cookies : option loc) : Prop :=
  match cookies with
  | None => True
  | Some c => c < length (heap s)
  end.

(** The one-off cookie mapping an argument carries. *)
Definition one_off (s : state) (cookies : option loc) : CookieMap :=
  match cookies with
  | None => []
  | Some c => nth c (heap s) []
  end.

(** A stored domain applies to a request domain when it equals it or is a
    parent domain of it. *)
Definition applies (stored_domain request_domain : string) : bool :=
  String.eqb stored_domain request_domain
  || _domain_matches stored_domain request_domain.

(** The merged cookie mapping of the composer: the applicable stored domains
    laid over each other in store order, then the one-off cookies. *)
Definition merged_for (view : dict CookieMap) (oneoff : CookieMap)
    (request_domain : string) : CookieMap :=
  dict_update
    (fold_left (fun m item =>
       if applies (fst item) request_domain then dict_update m (snd item)
       else m) view [])
    oneoff.

Definition named (n : string) (kv : string * string) : bool :=
  String.eqb (lower (fst kv)) n.

Definition ordinary (kv : string * string) : bool :=
  negb (named "cookie" kv) && negb (named "priority" kv).

(** The composed header, when there is something to send. *)
Definition cookie_entry (merged : CookieMap) : list (string * string) :=
  if nonempty merged
  then [("cookie", join "; " (map cookie_pair merged))]
  else [].

Fixpoint sdrop (n : nat) (s : string) : string :=
  match n, s with
  | 0, _ => s
  | S m, EmptyString => EmptyString
  | S m, String _ r => sdrop m r
  end.

Definition is_domain_attr (seg : string) : bool :=
  startswith (lower (strip seg)) "domain=".

(** The declared domain of the attribute segments of a Set-Cookie value. *)
Definition declared_domain (segs : list string) : string :=
  match find is_domain_attr segs with
  | Some seg =>
      let d := lower (strip (sdrop 7 (strip seg))) in
      if startswith d "." then tail d else d
  | None => ""
  end.

(** The cookie a raw Set-Cookie value yields, if any. *)
Definition parsed (raw : string) : list (string * string * string) :=
  match split ";" raw with
  | seg0 :: segs =>
      match cut "=" (strip seg0) with
      | Some (n, v) => [(strip n, strip v, declared_domain segs)]
      | None => []
      end
  | [] => []
  end.

(** The cookies kept for a domain, none if the domain is not a key. *)
Definition get_or_empty (D : string) (view : dict CookieMap) : CookieMap :=
  match dict_get D view with
  | Some cm => cm
  | None => []
  end.

(** [set_for_domain]: the store with [n = v] under [D]. *)
Definition store_put (D n v : string) (view : dict CookieMap)
  : dict CookieMap :=
  dict_set D (dict_set n v (get_or_empty D view)) view.

(** The store after the one-off cookies of a request to [D] are kept. *)
Definition persisted (D : string) (oneoff : CookieMap)
    (view : dict CookieMap) : dict CookieMap :=
  if nonempty oneoff
  then dict_set D (dict_update (get_or_empty D view) oneoff) view
  else view.

(** What a step keeps: the session, the wire, and the dicts of the heap
    that the store does not own. *)
Definition preserved (s s' : state) : Prop :=
  session_id s' = session_id s
  /\ wire s' = wire s
  /\ length (heap s) <= length (heap s')
  /\ forall c, c < length (heap s) -> ~ In c (store_locs s) ->
       nth_error (heap s') c = nth_error (heap s) c
       /\ ~ In c (store_locs s').

(** The header list [_prepare_headers] is to return for a merged mapping. *)
Definition composed (headers : list (string * string)) (merged : CookieMap)
  : list (string * string) :=
  filter ordinary headers ++ cookie_entry merged
  ++ filter (named "priority") headers.

Definition storage_domain (declared request_domain : string) : string :=
  if truthy declared then declared else request_domain.

Definition ingest_cookie (request_domain : string)
    (view : dict CookieMap) (c : string * string * string)
  : dict CookieMap :=
  let '(n, v, d) := c in store_put (storage_domain d request_domain) n v view.

(** The raw values of the Set-Cookie headers of a response, in order. *)
Definition set_cookie_values (headers : dict (list string)) : list string :=
  flat_map (fun item =>
    if String.eqb (lower (fst item)) "set-cookie" then snd item else [])
    headers.

(** The store view after a response has been ingested. *)
Definition ingested (request_domain : string) (headers : dict (list string))
    (view : dict CookieMap) : dict CookieMap :=
  fold_left (ingest_cookie request_domain)
    (flat_map parsed (set_cookie_values headers)) view.

(** The state an outcome leaves behind. *)
Definition final {A} (o : outcome A) : state :=
  match o with
  | Done _ s => s
  | Fail _ s => s
  end.

(** The two parts of the invariant of the store keys. *)
Definition keys_lower (s : state) : Prop :=
  Forall (fun k => lower k = k) (keys (_cookies s)).

Definition keys_undotted (s : state) : Prop :=
  Forall (fun k => startswith k "." = false) (keys (_cookies s)).

(** The value of the Domain attribute of a raw Set-Cookie value, trimmed,
    before it is lower-cased and its leading dot is removed. *)
Definition domain_attribute (raw : string) : option string :=
  match find is_domain_attr (List.tl (split ";" raw)) with
  | Some seg => Some (strip (sdrop 7 (strip seg)))
  | None => None
  end.

(** The Domain attribute, if any, starts with at most one dot. *)
Definition single_dot (raw : string) : Prop :=
  forall a, domain_attribute raw = Some a -> startswith a ".." = false.

(** The composed cookie header of a header list carries the pair [k = v]. *)
Definition header_carries (hs : list (string * string)) (k v : string)
  : Prop :=
  exists merged,
    In ("cookie", join "; " (map cookie_pair merged)) hs /\ In (k, v) merged.

(** [x in s] for strings: [x] occurs in [s]. *)
Fixpoint occurs (x s : string) : bool :=
  startswith s x
  || match s with
     | EmptyString => false
     | String _ r => occurs x r
     end.

(** A stand-in for [urlparse(url).netloc] on [https://host/path] URLs. *)
Definition https_netloc (url : string) : result string :=
  match cut "/" (sdrop 8 url) with
  | Some (host, _) => Ok host
  | None => Ok (sdrop 8 url)
  end.

(** A state with cookies for a domain and its parent, and a caller dict. *)
Definition sample_state : state :=
  mkState [[("x", "1"); ("y", "0")]; [("x", "9"); ("z", "5")]; [("x", "2")]]
          (Some "session-1")
          [("shop.domain.com", 0); ("domain.com", 1)]
          [].

(** A client with a session and an empty store, and a caller dict. *)
Definition fresh_state : state :=
  mkState [[("init", "hello")]] (Some "session-1") [] [].

(** ** Bodies, answers and the session *)

(** A byte with the value [n], for [n] below 256. *)
Definition byte_of_nat (n : nat) : Byte.byte := byte_of_ascii (ascii_of_nat n).

Definition nat_of_byte (b : Byte.byte) : nat := nat_of_ascii (ascii_of_byte b).

(** [s.encode('utf-8')] for a string of code points below 256: one byte
    below 128, two bytes from there on. *)
Definition utf8_char (c : ascii) : list Byte.byte :=
  let n := nat_of_ascii c in
  if n <? 128 then [byte_of_nat n]
  else [byte_of_nat (192 + n / 64); byte_of_nat (128 + n mod 64)].

Fixpoint utf8 (s : string) : list Byte.byte :=
  match s with
  | EmptyString => []
  | String c r => utf8_char c ++ utf8 r
  end.

(** The digit ["0123456789abcdef"[n]]. *)
Definition hex_digit (n : nat) : ascii :=
  match String.get n "0123456789abcdef" with
  | Some c => c
  | None => "0"%char
  end.

(** [b.hex()]: two lower-case digits for each byte. *)
Fixpoint hex (b : list Byte.byte) : string :=
  match b with
  | [] => EmptyString
  | x :: r =>
      let n := nat_of_byte x in
      String (hex_digit (n / 16)) (String (hex_digit (n mod 16)) (hex r))
  end.

(** The value of a character as a digit, as [bytes.fromhex] reads it: 0 to
    35 for a digit or a letter of either case, 37 for anything else. *)
Definition digit_value (c : ascii) : nat :=
  let n := nat_of_ascii c in
  if (48 <=? n) && (n <=? 57) then n - 48
  else if (97 <=? n) && (n <=? 122) then n - 87
  else if (65 <=? n) && (n <=? 90) then n - 55
  else 37.

(** ASCII white space, which [bytes.fromhex] skips between bytes. *)
Definition ascii_space (c : ascii) : bool :=
  let n := nat_of_ascii c in
  (n =? 32) || ((9 <=? n) && (n <=? 13)).

(** [bytes.fromhex(s)]: [ValueError] for a character that is no hex digit,
    white space inside a byte included, and for a digit without its pair. *)
Fixpoint fromhex (s : string) : result (list Byte.byte) :=
  match s with
  | EmptyString => Ok []
  | String c r =>
      if ascii_space c then fromhex r
      else if 16 <=? digit_value c then Raise ValueError
      else
        match r with
        | EmptyString => Raise ValueError
        | String c' r' =>
            if 16 <=? digit_value c' then Raise ValueError
            else
              match fromhex r' with
              | Ok bs =>
                  Ok (byte_of_nat (16 * digit_value c + digit_value c') :: bs)
              | Raise e => Raise e
              end
        end
  end.

Section Content.

(** The values [json.dumps] accepts, and [json.dumps] itself. *)
Variable J : Type.
Variable json_dumps : J -> string.

(** [ContentType]: [None], a dict, text or bytes. *)
Inductive ContentType : Type :=
| ContentNone
| ContentDict (j : J)
| ContentStr (s : string)
| ContentBytes (b : list Byte.byte).

(** The bytes of a body, before they are written in hex. *)
Definition body_bytes (content : ContentType) : list Byte.byte :=
  match content with
  | ContentNone => []
  | ContentDict j => utf8 (json_dumps j)
  | ContentStr s => utf8 s
  | ContentBytes b => b
  end.

Definition _prepare_content (content : ContentType) : string :=
  match content with
  | ContentNone => ""
  | ContentDict j => let body_bytes := utf8 (json_dumps j) in hex body_bytes
  | ContentStr s => let body_bytes := utf8 s in hex body_bytes
  | ContentBytes b => let body_bytes := b in hex body_bytes
  end.

End Content.
Arguments ContentNone {J}.
Arguments ContentDict {J} j.
Arguments ContentStr {J} s.
Arguments ContentBytes {J} b.

(** The decoding of a response body in [request]:
    [bytes.fromhex(body_hex) if body_hex else b""]. *)
Definition decode_body (body_hex : string) : result (list Byte.byte) :=
  if truthy body_hex then fromhex body_hex else Ok [].

(** [Response], without [duration_ms]. *)
Record Response : Type := mkResponse {
  status_code : Z;
  resp_headers : dict (list string);
  content : list Byte.byte
}.

(** What [raise_for_status] does: nothing, or [HTTPStatusError] with the
    response. *)
Inductive status_check : Type :=
| StatusOk
| HTTPStatusError (response : Response).

Definition raise_for_status (r : Response) : status_check :=
  if (400 <=? status_code r)%Z then HTTPStatusError r else StatusOk.

(** The JSON answer to a posted request, as [request] reads it: the truth of
    ["success"], and under ["response"] the optional ["status_code"],
    ["headers"] (each with an optional ["values"]) and ["body"]. *)
Record response_data : Type := mkResponseData {
  rd_status_code : option Z;
  rd_headers : option (dict (option (list string)));
  rd_body : option string
}.

Record answer : Type := mkAnswer {
  ans_success : bool;
  ans_response : option response_data
}.

(** The loop that fills [resp_headers] from the raw headers. *)
Definition response_headers (raw_headers : dict (option (list string)))
  : dict (list string) :=
  fold_left (fun resp_headers item =>
    dict_set (fst item)
      (match snd item with Some values => values | None => [] end)
      resp_headers)
    raw_headers [].

(** The part of the [try] block of [request] that reads the answer. *)
Definition receive (data : answer) (domain : string) : M Response :=
  if negb (ans_success data) then raise RequestError
  else
    let response_data :=
      match ans_response data with
      | Some rd => rd
      | None => mkResponseData None None None
      end in
    let status_code :=
      match rd_status_code response_data with Some c => c | None => 0%Z end in
    let raw_headers :=
      match rd_headers response_data with Some h => h | None => [] end in
    let resp_headers := response_headers raw_headers in
    _update_cookies_from_response resp_headers domain ;;
    let body_hex :=
      match rd_body response_data with Some b => b | None => "" end in
    content_bytes <- lift (decode_body body_hex) ;;
    ret (mkResponse status_code resp_headers content_bytes).

Section RequestResponse.

Variable netloc : string -> result string.

(** [request] with the whole answer of the remote service: [data] is the
    JSON answer, or [None] when the call itself fails. *)
Definition request_response (url : string) (headers : option HeadersType)
    (cookies : option loc) (body : BodyArg) (data : option answer)
  : M Response :=
  sid <- gets session_id ;;
  if negb (match sid with Some i => truthy i | None => false end)
  then raise RequestError
  else
    domain <- lift (_extract_domain netloc url) ;;
    persist_cookies domain cookies ;;
    let headers := content_type_added body (headers_list headers) in
    prepared <- _prepare_headers (Some (HList headers)) cookies domain ;;
    try_request_error (
      modify (fun s => with_wire (wire s ++ [mkPayload url prepared]) s) ;;
      match data with
      | None => raise RequestError
      | Some data => receive data domain
      end).

End RequestResponse.

(** The headers [request] hands to ingestion, and whether it gets there. *)
Definition reply_of (data : option answer) : option (dict (list string)) :=
  match data with
  | Some d =>
      if ans_success d then
        Some (response_headers
                (match ans_response d with
                 | Some rd =>
                     match rd_headers rd with Some h => h | None => [] end
                 | None => []
                 end))
      else None
  | None => None
  end.

Definition with_session (sid : option string) (s : state) : state :=
  mkState (heap s) sid (_cookies s) (wire s).

(** The JSON answer to the creation of a session: the truth of
    ["success"], and ["session_id"] when the key is there ([None] inside
    for a JSON null). *)
Record session_answer : Type := mkSessionAnswer {
  sa_success : bool;
  sa_session_id : option (option string)
}.

(** [_create_session], from the answer of the remote service on. *)
Definition _create_session (data : session_answer) : M unit :=
  if sa_success data then
    match sa_session_id data with
    | Some sid => modify (with_session sid)
    | None => raise KeyError
    end
  else raise RequestError.

(** [try: m except Exception: pass] *)
Definition try_pass (m : M unit) : M unit :=
  fun s => match m s with
           | Done a s' => Done a s'
           | Fail _ s' => Done tt s'
           end.

(** [close]; [delete_outcome] is the exception that the call deleting the
    remote session raises, if it raises one. *)
Definition close (delete_outcome : option exn) : M unit :=
  sid <- gets session_id ;;
  if match sid with Some i => truthy i | None => false end then
    try_pass (match delete_outcome with
              | Some e => raise e
              | None => ret tt
              end) ;;
    modify (with_session None)
  else ret tt.

(** ** Strings: facts *)

Module PyStrFacts.

Lemma lower_char_idem c : lower_char (lower_char c) = lower_char c.
Proof. destruct c as [[] [] [] [] [] [] [] []]; reflexivity. Qed.

Lemma lower_idem s : lower (lower s) = lower s.
Proof.
  induction s as [|c r IH]; simpl; [reflexivity|].
  now rewrite lower_char_idem, IH.
Qed.

Lemma lower_char_dot c : Ascii.eqb (lower_char c) "." = Ascii.eqb c ".".
Proof. destruct c as [[] [] [] [] [] [] [] []]; reflexivity. Qed.

Lemma lower_char_equals c : Ascii.eqb (lower_char c) "=" = Ascii.eqb c "=".
Proof. destruct c as [[] [] [] [] [] [] [] []]; reflexivity. Qed.

Lemma lower_app a b : lower (a ++ b) = (lower a ++ lower b)%string.
Proof. induction a as [|c r IH]; simpl; [reflexivity| now rewrite IH]. Qed.

Lemma lower_length s : String.length (lower s) = String.length s.
Proof. induction s as [|c r IH]; simpl; [reflexivity| now rewrite IH]. Qed.

Lemma append_length a b :
  String.length (a ++ b) = String.length a + String.length b.
Proof. induction a as [|c r IH]; simpl; [reflexivity| now rewrite IH]. Qed.

Lemma append_assoc a b c : ((a ++ b) ++ c = a ++ (b ++ c))%string.
Proof. induction a as [|x r IH]; simpl; [reflexivity| now rewrite IH]. Qed.

Lemma append_nil_r a : (a ++ "")%string = a.
Proof. induction a as [|x r IH]; simpl; [reflexivity| now rewrite IH]. Qed.

Lemma append_inv_tail t a b : (a ++ t = b ++ t)%string -> a = b.
Proof.
  revert b; induction a as [|x a IH]; intros [|y b] H; simpl in H.
  - reflexivity.
  - apply (f_equal String.length) in H. simpl in H.
    rewrite append_length in H. lia.
  - apply (f_equal String.length) in H. simpl in H.
    rewrite append_length in H. lia.
  - injection H as -> H. f_equal. now apply IH.
Qed.

Lemma endswith_cons c r suf :
  endswith (String c r) suf = String.eqb (String c r) suf || endswith r suf.
Proof. reflexivity. Qed.

Lemma endswith_iff s suf :
  endswith s suf = true <-> exists p, s = (p ++ suf)%string.
Proof.
  split.
  - induction s as [|c r IH]; intros H.
    + destruct suf; [now exists ""| discriminate].
    + rewrite endswith_cons in H. apply orb_true_iff in H as [H|H].
      * apply String.eqb_eq in H. exists "". now rewrite H.
      * destruct (IH H) as [p ->]. now exists (String c p).
  - intros [p ->]. induction p as [|c p IH].
    + destruct suf; [reflexivity|].
      simpl append. rewrite endswith_cons, String.eqb_refl. reflexivity.
    + simpl append. rewrite endswith_cons, IH. apply orb_true_r.
Qed.

End PyStrFacts.
Import PyStrFacts.

(** ** Domain matching *)

(** C3. [_domain_matches] holds exactly for a non-empty cookie domain that
    equals the request domain up to case, or that the request domain ends
    with, up to case, after a dot; it is false for an empty cookie domain
    and in every other case.  When the request domain is the cookie domain
    with a prefix, the match is decided by the character before the cookie
    domain being a dot, so that ["x" ++ cookie_domain] never matches. *)
Theorem domain_matches_spec (cookie_domain request_domain : string) :
  (_domain_matches cookie_domain request_domain = true <->
     cookie_domain <> ""
     /\ (lower request_domain = lower cookie_domain
         \/ exists p,
              lower request_domain = (p ++ "." ++ lower cookie_domain)%string))
  /\ _domain_matches "" request_domain = false
  /\ (forall (p : string) (ch : ascii),
        _domain_matches cookie_domain (p ++ String ch cookie_domain)
        = truthy cookie_domain && Ascii.eqb ch ".")
  /\ _domain_matches cookie_domain ("x" ++ cookie_domain) = false.
Proof.
  assert (Hiff : forall c r,
    _domain_matches c r = true <->
      c <> "" /\ (lower r = lower c
                  \/ exists p, lower r = (p ++ "." ++ lower c)%string)).
  { intros c r. unfold _domain_matches.
    destruct c as [|x c]; simpl truthy; cbv iota; simpl negb.
    - split; [discriminate | intros [H _]; now elim H].
    - cbv iota. split.
      + intros H. split; [discriminate|].
        destruct (String.eqb_spec (lower r) (lower (String x c))) as [E|E].
        * now left.
        * right. apply endswith_iff.
          destruct (endswith (lower r) ("." ++ lower (String x c))); congruence.
      + intros [_ [E|E]].
        * rewrite E, String.eqb_refl. reflexivity.
        * apply endswith_iff in E. rewrite E.
          now destruct (String.eqb (lower r) (lower (String x c))). }
  assert (Hpre : forall c p ch,
    _domain_matches c (p ++ String ch c) = truthy c && Ascii.eqb ch ".").
  { intros c p ch.
    destruct (truthy c && Ascii.eqb ch ".") eqn:E.
    - apply andb_true_iff in E as [Hc Hch]. apply Ascii.eqb_eq in Hch. subst ch.
      apply Hiff. split; [now destruct c|].
      right. exists (lower p). now rewrite lower_app.
    - destruct (_domain_matches c (p ++ String ch c)) eqn:D; [|reflexivity].
      apply Hiff in D as [Hc [D|[q D]]].
      + apply (f_equal String.length) in D.
        rewrite !lower_length, append_length in D. simpl in D. lia.
      + rewrite lower_app in D. simpl in D.
        change (lower p ++ String (lower_char ch) (lower c))%string
          with (lower p ++ (String (lower_char ch) "" ++ lower c))%string in D.
        change (q ++ String "." (lower c))%string
          with (q ++ (String "." "" ++ lower c))%string in D.
        rewrite <- !append_assoc in D. apply append_inv_tail in D.
        assert (Hch : lower_char ch = "."%char).
        { clear -D. revert q D.
          induction p as [|a p IH]; intros [|b q] D; simpl in D.
          - now injection D.
          - injection D as _ D. destruct q; discriminate.
          - injection D as _ D. destruct p; discriminate.
          - injection D as _ D. eauto. }
        apply (f_equal (fun a => Ascii.eqb a ".")) in Hch.
        rewrite lower_char_dot in Hch. simpl in Hch.
        destruct c; [now elim Hc|]. simpl in E. congruence. }
  split; [apply Hiff|]. split; [reflexivity|]. split; [apply Hpre|].
  change ("x" ++ cookie_domain)%string
    with ("" ++ String "x" cookie_domain)%string.
  rewrite Hpre. simpl. apply andb_false_r.
Qed.

(** ** Parsing Set-Cookie values *)

Module ParseFacts.

Lemma split_cons sep s : exists h t, split sep s = h :: t.
Proof.
  induction s as [|c r [h [t IH]]]; simpl; [now eauto|].
  destruct (Ascii.eqb c sep); [now eauto|]. rewrite IH. eauto.
Qed.

Lemma contains_lstrip c s :
  is_space c = false -> contains c (lstrip s) = contains c s.
Proof.
  intros Hc. induction s as [|a r IH]; simpl; [reflexivity|].
  destruct (is_space a) eqn:Ha; [|reflexivity].
  rewrite IH. destruct (Ascii.eqb_spec a c); [congruence | reflexivity].
Qed.

Lemma contains_rstrip c s :
  is_space c = false -> contains c (rstrip s) = contains c s.
Proof.
  intros Hc. induction s as [|a r IH]; simpl; [reflexivity|].
  destruct (rstrip r) as [|b r'] eqn:E.
  - rewrite <- IH. simpl. rewrite orb_false_r.
    destruct (is_space a) eqn:Ha; simpl.
    + destruct (Ascii.eqb_spec a c); [congruence | reflexivity].
    + now rewrite orb_false_r.
  - rewrite <- IH. reflexivity.
Qed.

Lemma contains_strip c s :
  is_space c = false -> contains c (strip s) = contains c s.
Proof.
  intros Hc. unfold strip.
  now rewrite contains_rstrip, contains_lstrip.
Qed.

(** A character of the first piece of a split is a character of the
    whole string. *)
Lemma contains_split_hd c sep s h t :
  split sep s = h :: t -> contains c h = true -> contains c s = true.
Proof.
  revert h t. induction s as [|a r IH]; simpl; intros h t H Hc.
  - injection H as <- <-. discriminate.
  - destruct (Ascii.eqb a sep).
    + injection H as <- <-. discriminate.
    + destruct (split sep r) as [|h' t'] eqn:E.
      * injection H as <- <-. simpl in Hc. rewrite orb_false_r in Hc.
        now rewrite Hc.
      * injection H as <- <-. simpl in Hc.
        apply orb_true_iff in Hc as [Hc|Hc]; [now rewrite Hc|].
        rewrite (IH _ _ eq_refl Hc). apply orb_true_r.
Qed.

Lemma cut_none c s : cut c s = None <-> contains c s = false.
Proof.
  induction s as [|a r IH]; simpl; [tauto|].
  destruct (Ascii.eqb a c); simpl; [split; discriminate|].
  destruct (cut c r) as [[x y]|]; rewrite <- IH; split; congruence.
Qed.

Lemma cut_some c s a b :
  cut c s = Some (a, b) ->
  s = (a ++ String c b)%string /\ contains c a = false.
Proof.
  revert a. induction s as [|x r IH]; simpl; intros a H; [discriminate|].
  destruct (Ascii.eqb_spec x c) as [->|Hx].
  - injection H as <- <-. now split.
  - destruct (cut c r) as [[a' b']|]; [|discriminate].
    injection H as <- <-. destruct (IH a' eq_refl) as [-> Ha].
    split; [reflexivity|]. simpl. rewrite Ha.
    now destruct (Ascii.eqb_spec x c).
Qed.

(** In a segment that starts with [domain=] up to case, the first [=] is
    the one of the attribute: the second piece of [split('=', 1)] is the
    text after the seven characters. *)
Lemma domain_attr_value p :
  startswith (lower p) "domain=" = true ->
  nth_error (split1 "=" p) 1 = Some (sdrop 7 p).
Proof.
  assert (Hne : forall x y : ascii,
    lower_char x = y -> Ascii.eqb y "=" = false -> Ascii.eqb x "=" = false).
  { intros x y <- H. now rewrite lower_char_equals in H. }
  unfold startswith, split1.
  destruct p as [|c1 [|c2 [|c3 [|c4 [|c5 [|c6 [|c7 r]]]]]]];
    simpl; intros H;
    repeat match type of H with
           | (if ?d then _ else _) = true =>
               let E := fresh "E" in
               destruct d as [E|]; [symmetry in E | discriminate]
           end; try discriminate.
  rewrite (Hne c1 _ E eq_refl), (Hne c2 _ E0 eq_refl),
          (Hne c3 _ E1 eq_refl), (Hne c4 _ E2 eq_refl),
          (Hne c5 _ E3 eq_refl), (Hne c6 _ E4 eq_refl).
  assert (H7 : Ascii.eqb c7 "=" = true).
  { rewrite <- lower_char_equals, E5. reflexivity. }
  rewrite H7. reflexivity.
Qed.

Lemma find_domain_spec segs : find_domain segs = Ok (declared_domain segs).
Proof.
  unfold declared_domain.
  induction segs as [|seg segs IH]; [reflexivity|].
  cbn [find_domain find]. unfold is_domain_attr at 1.
  destruct (startswith (lower (strip seg)) "domain=") eqn:E; [|exact IH].
  now rewrite (domain_attr_value _ E).
Qed.

Lemma parse_value_spec value : parse_value value = Ok (parsed value).
Proof.
  unfold parse_value, parsed.
  destruct (split_cons ";" value) as [seg0 [segs E]]. rewrite E.
  assert (Hsp : is_space "=" = false) by reflexivity.
  destruct (contains "=" (strip seg0)) eqn:C.
  - assert (Cv : contains "=" value = true).
    { rewrite contains_strip in C by exact Hsp.
      eapply contains_split_hd; eauto. }
    rewrite Cv. unfold split1.
    destruct (cut "=" (strip seg0)) as [[a b]|] eqn:K.
    + now rewrite find_domain_spec.
    + apply cut_none in K. congruence.
  - apply cut_none in C. rewrite C.
    now destruct (contains "=" value).
Qed.

Lemma parse_set_cookie_spec values :
  _parse_set_cookie values = Ok (flat_map parsed values).
Proof.
  induction values as [|v r IH]; simpl; [reflexivity|].
  now rewrite parse_value_spec, IH.
Qed.

(** A value whose first segment has no [=] yields no cookie. *)
Lemma parsed_malformed raw seg0 segs :
  split ";" raw = seg0 :: segs -> contains "=" seg0 = false ->
  parsed raw = [].
Proof.
  intros E C. unfold parsed. rewrite E.
  rewrite <- (contains_strip "=" seg0 eq_refl) in C.
  apply cut_none in C. now rewrite C.
Qed.

End ParseFacts.
Import ParseFacts.

Example strip_example :
  strip "  a b  " = "a b" /\ strip (String "009" "x" ++ String "160" "") = "x"
  /\ lower (String "192" (String "215" (String "222" "")))
     = String "224" (String "215" (String "254" "")).
Proof. repeat split. Qed.

Example split_example :
  split ";" "a;;b" = ["a"; ""; "b"] /\ split ";" "" = [""]
  /\ split1 "=" "a=b=c" = ["a"; "b=c"] /\ split1 "=" "abc" = ["abc"].
Proof. repeat split. Qed.

Example lower_example :
  lower "Set-COOKIE" = "set-cookie"
  /\ endswith "shop.example.com" ".example.com" = true
  /\ join "; " ["a=1"; "b=2"] = "a=1; b=2" /\ join "; " [] = "".
Proof. repeat split. Qed.

Example parse_example :
  _parse_set_cookie ["sid=abc123; Domain=.Example.com; Path=/; HttpOnly";
                     "garbage-no-equals"; " a = b=c ;domain= "]
  = Ok [("sid", "abc123", "example.com"); ("a", "b=c", "")].
Proof. reflexivity. Qed.

(** ** Dicts: facts *)

Section DictFacts.
Context {V : Type}.
Implicit Types (d o : dict V) (k : string) (v : V).

Lemma dict_get_set_eq k v d : dict_get k (dict_set k v d) = Some v.
Proof.
  induction d as [|[k' v'] r IH]; simpl.
  - now rewrite String.eqb_refl.
  - destruct (String.eqb k k') eqn:E; simpl; rewrite E; [reflexivity | exact IH].
Qed.

Lemma dict_get_set_ne k k' v d :
  k <> k' -> dict_get k' (dict_set k v d) = dict_get k' d.
Proof.
  intros Hne. induction d as [|[k0 v0] r IH]; simpl.
  - destruct (String.eqb_spec k' k); [congruence | reflexivity].
  - destruct (String.eqb_spec k k0) as [->|E]; simpl.
    + destruct (String.eqb_spec k' k0); [congruence | reflexivity].
    + now rewrite IH.
Qed.

Lemma dict_get_none k d : dict_get k d = None <-> ~ In k (keys d).
Proof.
  induction d as [|[k' v'] r IH]; simpl; [tauto|].
  destruct (String.eqb_spec k k') as [->|E].
  - split; [discriminate | intros H; elim H; now left].
  - rewrite IH. split; intros H; [intros [?|?]; [congruence | tauto] | tauto].
Qed.

Lemma dict_get_in k v d : dict_get k d = Some v -> In (k, v) d.
Proof.
  induction d as [|[k' v'] r IH]; simpl; [discriminate|].
  destruct (String.eqb_spec k k') as [->|E].
  - intros [= ->]. now left.
  - intros H. right. now apply IH.
Qed.

Lemma in_dict_get k v d : NoDup (keys d) -> In (k, v) d -> dict_get k d = Some v.
Proof.
  induction d as [|[k' v'] r IH]; simpl; [tauto|].
  intros Hnd [H|H].
  - injection H as -> ->. now rewrite String.eqb_refl.
  - inversion Hnd as [|? ? Hk Hr]; subst.
    destruct (String.eqb_spec k k') as [->|E].
    + elim Hk. change (In (fst (k', v)) (map fst r)). now apply in_map.
    + now apply IH.
Qed.

Lemma dict_set_absent k v d : dict_get k d = None -> dict_set k v d = d ++ [(k, v)].
Proof.
  induction d as [|[k' v'] r IH]; simpl; [reflexivity|].
  destruct (String.eqb k k'); [discriminate|].
  intros H. now rewrite IH.
Qed.

Lemma keys_dict_set k v d :
  keys (dict_set k v d) = if dict_mem k d then keys d else keys d ++ [k].
Proof.
  unfold dict_mem. induction d as [|[k' v'] r IH]; simpl; [reflexivity|].
  destruct (String.eqb k k'); simpl; [reflexivity|].
  rewrite IH. now destruct (dict_get k r).
Qed.

Lemma NoDup_dict_set k v d : NoDup (keys d) -> NoDup (keys (dict_set k v d)).
Proof.
  intros H. rewrite keys_dict_set. unfold dict_mem.
  destruct (dict_get k d) eqn:E; [exact H|].
  apply dict_get_none in E.
  apply NoDup_app; [exact H | repeat constructor; intros [] |].
  intros x Hx [<-|[]]. contradiction.
Qed.

Lemma NoDup_dict_update d o : NoDup (keys d) -> NoDup (keys (dict_update d o)).
Proof.
  unfold dict_update. revert d.
  induction o as [|[k v] r IH]; simpl; intros d H; [exact H|].
  apply IH. now apply NoDup_dict_set.
Qed.

Lemma dict_update_nil d : dict_update d [] = d.
Proof. reflexivity. Qed.

Lemma dict_update_cons d k v o :
  dict_update d ((k, v) :: o) = dict_update (dict_set k v d) o.
Proof. reflexivity. Qed.

(** Keys the overlay does not mention keep their binding. *)
Lemma dict_get_update_absent k d o :
  dict_get k o = None -> dict_get k (dict_update d o) = dict_get k d.
Proof.
  revert d. induction o as [|[k' v'] r IH]; intros d H; [reflexivity|].
  rewrite dict_update_cons. simpl in H.
  destruct (String.eqb_spec k k') as [->|E]; [discriminate|].
  rewrite IH by exact H. apply dict_get_set_ne. congruence.
Qed.

(** The overlay wins on the keys it mentions. *)
Lemma dict_get_update_in k v d o :
  NoDup (keys o) -> In (k, v) o -> dict_get k (dict_update d o) = Some v.
Proof.
  revert d. induction o as [|[k' v'] r IH]; intros d Hnd Hin; [elim Hin|].
  rewrite dict_update_cons. inversion Hnd as [|? ? Hk Hr]; subst.
  destruct Hin as [H|H].
  - injection H as -> ->.
    rewrite dict_get_update_absent by (now apply dict_get_none).
    apply dict_get_set_eq.
  - now apply IH.
Qed.

End DictFacts.

(** Resolving the values of a dict commutes with lookup. *)
Lemma map_dict_get {A B} (f : A -> B) k (d : dict A) :
  dict_get k (map (fun item => (fst item, f (snd item))) d)
  = option_map f (dict_get k d).
Proof.
  induction d as [|[k' v'] r IH]; simpl; [reflexivity|].
  destruct (String.eqb k k'); [reflexivity | exact IH].
Qed.

(** ** The heap: facts *)

Section HeapFacts.
Context {A : Type}.
Implicit Types (h : list A) (i j : nat) (x : A).

Lemma list_set_length i x h : length (list_set i x h) = length h.
Proof.
  revert i. induction h as [|y r IH]; intros [|i]; simpl; auto.
Qed.

Lemma nth_error_list_set_eq i x h :
  i < length h -> nth_error (list_set i x h) i = Some x.
Proof.
  revert i. induction h as [|y r IH]; intros [|i]; simpl; intros H;
    try lia; [reflexivity | apply IH; lia].
Qed.

Lemma nth_error_list_set_ne i j x h :
  i <> j -> nth_error (list_set i x h) j = nth_error h j.
Proof.
  revert i j. induction h as [|y r IH]; intros [|i] [|j] H; simpl;
    try reflexivity; [congruence | apply IH; congruence].
Qed.

Lemma nth_of_nth_error i h x dflt :
  nth_error h i = Some x -> nth i h dflt = x.
Proof. intros H. now apply nth_error_nth. Qed.

Lemma nth_error_of_nth i h dflt :
  i < length h -> nth_error h i = Some (nth i h dflt).
Proof. intros H. now apply nth_error_nth'. Qed.

Lemma nth_ext_error i h h' dflt :
  nth_error h' i = nth_error h i -> nth i h' dflt = nth i h dflt.
Proof.
  intros H. destruct (nth_error h i) as [x|] eqn:E.
  - rewrite (nth_of_nth_error _ _ _ dflt E). now apply nth_of_nth_error.
  - rewrite !nth_overflow; [reflexivity | now apply nth_error_None ..].
Qed.

End HeapFacts.

(** ** Running the monad *)

Lemma bind_done {A B} (m : M A) (k : A -> M B) s a s' :
  m s = Done a s' -> bind m k s = k a s'.
Proof. intros H. unfold bind. now rewrite H. Qed.

Lemma bind_gets {A B} (f : state -> A) (k : A -> M B) s :
  bind (gets f) k s = k (f s) s.
Proof. reflexivity. Qed.

Lemma bind_ret {A B} (a : A) (k : A -> M B) s : bind (ret a) k s = k a s.
Proof. reflexivity. Qed.

Lemma bind_lift_ok {A B} (a : A) (k : A -> M B) s :
  bind (lift (Ok a)) k s = k a s.
Proof. reflexivity. Qed.

Lemma bind_modify {B} (f : state -> state) (k : unit -> M B) s :
  bind (modify f) k s = k tt (f s).
Proof. reflexivity. Qed.

Lemma bind_new_dict {B} (d : CookieMap) (k : loc -> M B) s :
  bind (new_dict d) k s = k (length (heap s)) (with_heap (heap s ++ [d]) s).
Proof. reflexivity. Qed.

Lemma bind_assoc {A B C} (m : M A) (f : A -> M B) (g : B -> M C) s :
  bind (bind m f) g s = bind m (fun x => bind (f x) g) s.
Proof. unfold bind. now destruct (m s). Qed.

Lemma deref_run l d s : nth_error (heap s) l = Some d -> deref l s = Done d s.
Proof. intros H. unfold deref. now rewrite H. Qed.

Lemma assign_run l d s :
  l < length (heap s) ->
  assign l d s = Done tt (with_heap (list_set l d (heap s)) s).
Proof.
  intros H. unfold assign.
  destruct (Nat.ltb_spec l (length (heap s))); [reflexivity | lia].
Qed.

Lemma copy_run l d s :
  nth_error (heap s) l = Some d ->
  copy l s = Done (length (heap s)) (with_heap (heap s ++ [d]) s).
Proof. intros H. unfold copy. now rewrite (bind_done _ _ _ _ _ (deref_run _ _ _ H)). Qed.

Lemma preserved_refl s : preserved s s.
Proof. repeat split; auto. Qed.

Lemma preserved_trans s1 s2 s3 :
  preserved s1 s2 -> preserved s2 s3 -> preserved s1 s3.
Proof.
  intros (Hs & Hw & Hl & Hc) (Hs' & Hw' & Hl' & Hc').
  repeat split; try congruence; try lia.
  - destruct (Hc c H H0) as [E N]. destruct (Hc' c) as [E' N']; [lia | exact N |].
    congruence.
  - destruct (Hc c H H0) as [E N]. destruct (Hc' c) as [E' N']; [lia | exact N |].
    exact N'.
Qed.

Lemma Forall_list_set {A} (P : A -> Prop) i x (h : list A) :
  Forall P h -> P x -> Forall P (list_set i x h).
Proof.
  intros H Hx. revert i. induction H as [|y r Hy Hr IH]; intros [|i]; simpl;
    constructor; auto.
Qed.

Lemma store_locs_lookup D l (cs : dict loc) :
  dict_get D cs = Some l -> In l (map snd cs).
Proof.
  intros H. apply dict_get_in in H.
  change l with (snd (D, l)). now apply in_map.
Qed.

(** The view resolves the store lookups. *)
Lemma view_lookup D s :
  dict_get D (store_view s)
  = option_map (fun l => nth l (heap s) []) (dict_get D (_cookies s)).
Proof. exact (map_dict_get (fun l => nth l (heap s) []) D (_cookies s)). Qed.

(** Two heaps that agree on the dicts of the store give the same view. *)
Lemma view_ext cs (h h' : list CookieMap) :
  (forall l, In l (map snd cs) -> nth_error h' l = nth_error h l) ->
  map (fun item : string * loc => (fst item, nth (snd item) h' [])) cs
  = map (fun item => (fst item, nth (snd item) h [])) cs.
Proof.
  intros H. apply map_ext_in. intros [k l] Hin. simpl. f_equal.
  apply nth_ext_error. apply H. change l with (snd (k, l)). now apply in_map.
Qed.

(** Replacing the entries of the dict of [D] is an assignment in the view. *)
Lemma view_assign D l d s :
  NoDup (store_locs s) -> l < length (heap s) ->
  dict_get D (_cookies s) = Some l ->
  store_view (with_heap (list_set l d (heap s)) s) = dict_set D d (store_view s).
Proof.
  unfold store_view, store_locs. simpl. generalize (heap s) as h. intros h.
  induction (_cookies s) as [|[k l0] r IH]; simpl; intros Hnd Hl Hget;
    [discriminate|].
  inversion Hnd as [|? ? Hl0 Hr]; subst.
  destruct (String.eqb_spec D k) as [->|E].
  - injection Hget as ->. f_equal.
    + f_equal. apply nth_of_nth_error. now apply nth_error_list_set_eq.
    + apply view_ext. intros l' Hin. apply nth_error_list_set_ne.
      intros Heq; subst; contradiction.
  - f_equal.
    + f_equal. apply nth_ext_error. apply nth_error_list_set_ne.
      apply store_locs_lookup in Hget. intros Heq; subst; contradiction.
    + now apply IH.
Qed.

Lemma dict_set_set {V} k (v v' : V) d :
  dict_set k v' (dict_set k v d) = dict_set k v' d.
Proof.
  induction d as [|[k0 v0] r IH]; simpl.
  - now rewrite String.eqb_refl.
  - destruct (String.eqb k k0) eqn:E; simpl; rewrite E; [reflexivity|].
    now rewrite IH.
Qed.

Lemma dict_set_same {V} k (v : V) d :
  dict_get k d = Some v -> dict_set k v d = d.
Proof.
  induction d as [|[k0 v0] r IH]; simpl; [discriminate|].
  destruct (String.eqb k k0); [now intros [= ->]|].
  intros H. now rewrite IH.
Qed.

(** After [ensure_domain] the domain has a dict in the store: the one it
    had, or a new empty one. *)
Lemma ensure_domain_run D s :
  wf s ->
  exists s' l,
    ensure_domain D s = Done tt s' /\ wf s' /\ preserved s s'
    /\ dict_get D (_cookies s') = Some l
    /\ nth_error (heap s') l = Some (get_or_empty D (store_view s))
    /\ store_view s' = dict_set D (get_or_empty D (store_view s)) (store_view s).
Proof.
  intros (Hk & Hnd & Hal & Hv). unfold ensure_domain, bind, gets, dict_mem.
  unfold get_or_empty. rewrite view_lookup.
  destruct (dict_get D (_cookies s)) as [l|] eqn:E; simpl.
  - exists s, l. split; [reflexivity|]. split; [now repeat split|].
    split; [apply preserved_refl|]. split; [exact E|].
    assert (Hl : l < length (heap s)).
    { rewrite Forall_forall in Hal. apply Hal. eapply store_locs_lookup; eauto. }
    split; [now apply nth_error_of_nth|].
    symmetry. apply dict_set_same. rewrite view_lookup, E. reflexivity.
  - set (n := length (heap s)).
    assert (Hn : ~ In n (store_locs s)).
    { intros H. rewrite Forall_forall in Hal. apply Hal in H. unfold n in H. lia. }
    eexists _, n. split; [reflexivity|].
    unfold wf, preserved, store_view, store_locs in *. simpl.
    rewrite (dict_set_absent _ _ _ E).
    rewrite !map_app, length_app. simpl.
    repeat split.
    + unfold keys in *. rewrite map_app. simpl.
      apply NoDup_app; [exact Hk | repeat constructor; intros [] |].
      intros x Hx [<-|[]]. now apply dict_get_none in E.
    + apply NoDup_app; [exact Hnd | repeat constructor; intros [] |].
      intros x Hx [<-|[]]. contradiction.
    + apply Forall_app. split.
      * eapply Forall_impl; [|exact Hal]. simpl. intros; lia.
      * constructor; [unfold n; lia | constructor].
    + apply Forall_app. split; [exact Hv | constructor; constructor].
    + lia.
    + now apply nth_error_app1.
    + intros H1. apply in_app_or in H1 as [H1|[H1|[]]]; [contradiction|].
      fold n in H1. lia.
    + rewrite <- (dict_set_absent _ _ _ E). apply dict_get_set_eq.
    + rewrite nth_error_app2 by (fold n; lia). fold n.
      now rewrite Nat.sub_diag.
    + rewrite dict_set_absent.
      * f_equal.
        -- apply view_ext. intros l Hl. apply nth_error_app1.
           rewrite Forall_forall in Hal. now apply Hal.
        -- unfold n. rewrite nth_middle. reflexivity.
      * pose proof (view_lookup D s) as X. rewrite E in X. exact X.
Qed.

(** Replacing the entries of a dict of the store keeps the state well
    formed and touches nothing else. *)
Lemma assign_store D l d s :
  wf s -> dict_get D (_cookies s) = Some l -> NoDup (keys d) ->
  let s' := with_heap (list_set l d (heap s)) s in
  l < length (heap s) /\ wf s' /\ preserved s s'
  /\ store_view s' = dict_set D d (store_view s).
Proof.
  intros (Hk & Hnd & Hal & Hv) Hget Hd s'.
  assert (Hin : In l (store_locs s)) by (eapply store_locs_lookup; eauto).
  assert (Hl : l < length (heap s)).
  { rewrite Forall_forall in Hal. now apply Hal. }
  split; [exact Hl|]. split; [|split].
  - unfold wf, s', store_locs. simpl. rewrite list_set_length.
    repeat split; auto. now apply Forall_list_set.
  - unfold preserved, s', store_locs. simpl. rewrite list_set_length.
    repeat split; auto.
    apply nth_error_list_set_ne. intros ->. contradiction.
  - now apply view_assign.
Qed.

Lemma wf_dict_valid s l d :
  wf s -> nth_error (heap s) l = Some d -> NoDup (keys d).
Proof.
  intros (_ & _ & _ & Hv) H. rewrite Forall_forall in Hv.
  apply Hv. eapply nth_error_In; eauto.
Qed.

(** One parsed cookie goes to the store: [set_for_domain]. *)
Lemma put_run D n v s :
  wf s ->
  exists s',
    (ensure_domain D ;; l <- cookies_item D ;; setitem l n v) s = Done tt s'
    /\ wf s' /\ preserved s s'
    /\ store_view s' = store_put D n v (store_view s).
Proof.
  intros Hwf.
  destruct (ensure_domain_run D s Hwf) as (s1 & l & Hrun & Hwf1 & Hp1 & Hget & Hd & Hview).
  rewrite (bind_done _ _ _ _ _ Hrun).
  unfold cookies_item, setitem, bind, gets. rewrite Hget. unfold ret.
  rewrite (deref_run _ _ _ Hd).
  assert (Hvalid : NoDup (keys (dict_set n v (get_or_empty D (store_view s))))).
  { apply NoDup_dict_set. eapply wf_dict_valid; eauto. }
  destruct (assign_store D l _ s1 Hwf1 Hget Hvalid) as (Hl & Hwf2 & Hp2 & Hview2).
  rewrite (assign_run _ _ _ Hl).
  eexists. split; [reflexivity|]. split; [exact Hwf2|].
  split; [eapply preserved_trans; eauto|].
  etransitivity; [exact Hview2|].
  rewrite Hview. unfold store_put. apply dict_set_set.
Qed.

(** A caller's dict stays what it was across a preserving step. *)
Lemma arg_ok_preserved s s' cookies :
  arg_ok s cookies -> preserved s s' ->
  arg_ok s' cookies /\ one_off s' cookies = one_off s cookies.
Proof.
  intros Ha (_ & _ & Hlen & Hc). destruct cookies as [c|]; simpl in *; [|auto].
  destruct Ha as [Hl Hn]. destruct (Hc c Hl Hn) as [E N].
  repeat split; [lia | exact N | now apply nth_ext_error].
Qed.

Lemma cookies_truthy_run s cookies :
  arg_ok s cookies ->
  cookies_truthy cookies s = Done (nonempty (one_off s cookies)) s.
Proof.
  destruct cookies as [c|]; simpl; [|reflexivity].
  intros [Hl _]. unfold bind.
  rewrite (deref_run c (nth c (heap s) []) s); [reflexivity|].
  now apply nth_error_of_nth.
Qed.

(** The given cookies are laid over the dict of the request domain. *)
Lemma persist_cookies_run D cookies s :
  wf s -> arg_ok s cookies ->
  exists s',
    persist_cookies D cookies s = Done tt s'
    /\ wf s' /\ preserved s s'
    /\ store_view s' = persisted D (one_off s cookies) (store_view s).
Proof.
  intros Hwf Ha. unfold persist_cookies, persisted.
  rewrite (bind_done _ _ _ _ _ (cookies_truthy_run s cookies Ha)).
  destruct (nonempty (one_off s cookies)) eqn:Hne.
  2:{ exists s. split; [reflexivity|]. split; [exact Hwf|].
      split; [apply preserved_refl | reflexivity]. }
  destruct cookies as [c|]; [|discriminate]. simpl in Hne |- *.
  destruct Ha as [Hc Hnc].
  destruct (ensure_domain_run D s Hwf)
    as (s1 & l & Hrun & Hwf1 & Hp1 & Hget & Hd & Hview).
  rewrite (bind_done _ _ _ _ _ Hrun).
  unfold cookies_item, update, bind, gets. rewrite Hget. unfold ret.
  rewrite (deref_run _ _ _ Hd).
  destruct Hp1 as (Hs1 & Hw1 & Hlen1 & Hkeep1).
  destruct (Hkeep1 c Hc Hnc) as [Ec Nc].
  rewrite (deref_run c (nth c (heap s) []) s1)
    by (rewrite Ec; now apply nth_error_of_nth).
  set (d := dict_update (get_or_empty D (store_view s)) (nth c (heap s) [])).
  assert (Hvalid : NoDup (keys d)).
  { apply NoDup_dict_update. eapply wf_dict_valid; eauto. }
  destruct (assign_store D l d s1 Hwf1 Hget Hvalid) as (Hl & Hwf2 & Hp2 & Hview2).
  rewrite (assign_run _ _ _ Hl).
  eexists. split; [reflexivity|]. split; [exact Hwf2|].
  split.
  - eapply preserved_trans; [|exact Hp2]. repeat split; auto; now apply Hkeep1.
  - etransitivity; [exact Hview2|]. rewrite Hview. apply dict_set_set.
Qed.

(** *** Response ingestion *)

(** A loop whose body acts on the store view as [f] acts as the fold. *)
Lemma for_each_store {A} (body : A -> M unit)
    (f : dict CookieMap -> A -> dict CookieMap) :
  (forall x s, wf s ->
     exists s', body x s = Done tt s' /\ wf s' /\ preserved s s'
                /\ store_view s' = f (store_view s) x) ->
  forall l s, wf s ->
    exists s', for_each l body s = Done tt s' /\ wf s' /\ preserved s s'
               /\ store_view s' = fold_left f l (store_view s).
Proof.
  intros Hbody l. induction l as [|x r IH]; intros s Hwf; simpl.
  - exists s. split; [reflexivity|]. split; [exact Hwf|].
    split; [apply preserved_refl | reflexivity].
  - destruct (Hbody x s Hwf) as (s1 & Hrun & Hwf1 & Hp1 & Hv1).
    rewrite (bind_done _ _ _ _ _ Hrun).
    destruct (IH s1 Hwf1) as (s2 & Hrun2 & Hwf2 & Hp2 & Hv2).
    exists s2. split; [exact Hrun2|]. split; [exact Hwf2|].
    split; [eapply preserved_trans; eauto|]. now rewrite Hv2, Hv1.
Qed.

Lemma ingested_cons R item rest view :
  ingested R (item :: rest) view
  = ingested R rest
      (fold_left (ingest_cookie R)
         (flat_map parsed
            (if String.eqb (lower (fst item)) "set-cookie"
             then snd item else [])) view).
Proof.
  unfold ingested, set_cookie_values. simpl.
  now rewrite flat_map_app, fold_left_app.
Qed.

(** Ingestion never raises, and acts on the store view as [ingested]. *)
Lemma update_cookies_run headers R s :
  wf s ->
  exists s',
    _update_cookies_from_response headers R s = Done tt s'
    /\ wf s' /\ preserved s s'
    /\ store_view s' = ingested R headers (store_view s).
Proof.
  intros Hwf. unfold _update_cookies_from_response.
  destruct (for_each_store
    (fun item : string * list string =>
       let '(name, values) := item in
       if String.eqb (lower name) "set-cookie" then
         parsed_cookies <- lift (_parse_set_cookie values) ;;
         for_each parsed_cookies (fun c =>
           let '(cookie_name, cookie_value, cookie_domain) := c in
           let store_domain :=
             if truthy cookie_domain then cookie_domain else R in
           ensure_domain store_domain ;;
           l <- cookies_item store_domain ;;
           setitem l cookie_name cookie_value)
       else ret tt)
    (fun view item =>
       fold_left (ingest_cookie R)
         (flat_map parsed
            (if String.eqb (lower (fst item)) "set-cookie"
             then snd item else [])) view)) with (l := headers) (s := s)
    as (s' & Hrun & Hwf' & Hp & Hv); [| exact Hwf |].
  - intros [name values] s0 Hwf0. simpl fst; simpl snd.
    destruct (String.eqb (lower name) "set-cookie").
    + rewrite parse_set_cookie_spec. simpl lift.
      unfold bind at 1. unfold ret at 1.
      apply for_each_store; [|exact Hwf0].
      intros [[n v] d] s1 Hwf1. apply put_run. exact Hwf1.
    + exists s0. split; [reflexivity|]. split; [exact Hwf0|].
      split; [apply preserved_refl | reflexivity].
  - exists s'. split; [exact Hrun|]. split; [exact Hwf'|]. split; [exact Hp|].
    rewrite Hv. clear. generalize (store_view s) as view.
    induction headers as [|item rest IH]; intros view; [reflexivity|].
    rewrite ingested_cons. simpl. apply IH.
Qed.

(** A response without a well-formed Set-Cookie value changes nothing. *)
Lemma update_cookies_nothing headers R s :
  flat_map parsed (set_cookie_values headers) = [] ->
  _update_cookies_from_response headers R s = Done tt s.
Proof.
  unfold _update_cookies_from_response, set_cookie_values.
  induction headers as [|[name values] rest IH]; simpl; intros H;
    [reflexivity|].
  rewrite flat_map_app in H. apply app_eq_nil in H as [H1 H2].
  unfold bind at 1.
  destruct (String.eqb (lower name) "set-cookie").
  - rewrite parse_set_cookie_spec, H1. simpl. now apply IH.
  - simpl. now apply IH.
Qed.

(** *** Header composition *)

Lemma partition_spec (hl n0 p0 : list (string * string)) :
  fold_left (fun acc kv =>
      let '(normal_headers, priority_headers) := acc in
      let '(k, v) := kv in
      let k_lower := lower k in
      if String.eqb k_lower "cookie" then acc
      else if String.eqb k_lower "priority"
      then (normal_headers, priority_headers ++ [(k, v)])
      else (normal_headers ++ [(k, v)], priority_headers))
    hl (n0, p0)
  = (n0 ++ filter ordinary hl, p0 ++ filter (named "priority") hl).
Proof.
  revert n0 p0. induction hl as [|[k v] r IH]; intros n0 p0; simpl.
  - now rewrite !app_nil_r.
  - unfold ordinary, named. simpl fst.
    destruct (String.eqb (lower k) "cookie") eqn:Ec.
    + rewrite IH. simpl.
      assert (Ep : String.eqb (lower k) "priority" = false).
      { apply String.eqb_eq in Ec. rewrite Ec. reflexivity. }
      now rewrite Ep.
    + destruct (String.eqb (lower k) "priority") eqn:Ep; rewrite IH; simpl;
        now rewrite <- app_assoc.
Qed.

Lemma merge_loop D s (cs : dict loc) acc :
  Forall (fun l => l < length (heap s)) (map snd cs) ->
  for_acc cs acc (fun merged_cookies item =>
      let '(cookie_domain, l) := item in
      if String.eqb cookie_domain D || _domain_matches cookie_domain D
      then domain_cookies <- deref l ;;
           ret (dict_update merged_cookies domain_cookies)
      else ret merged_cookies) s
  = Done (fold_left (fun m item =>
            if applies (fst item) D then dict_update m (snd item) else m)
          (map (fun item => (fst item, nth (snd item) (heap s) [])) cs) acc) s.
Proof.
  revert acc. induction cs as [|[k l] r IH]; intros acc H; simpl;
    [reflexivity|].
  inversion H as [|? ? Hl Hr]; subst. unfold applies at 2. simpl fst.
  unfold bind at 1.
  destruct (String.eqb k D || _domain_matches k D).
  - unfold bind at 1.
    rewrite (deref_run l (nth l (heap s) []) s) by (now apply nth_error_of_nth).
    unfold ret at 1. now apply IH.
  - unfold ret at 1. now apply IH.
Qed.

Lemma composed_eq hl (m : CookieMap) :
  (if nonempty m
   then filter ordinary hl ++ [("cookie", join "; " (map cookie_pair m))]
   else filter ordinary hl) ++ filter (named "priority") hl
  = composed hl m.
Proof.
  unfold composed, cookie_entry.
  destruct (nonempty m); [now rewrite <- List.app_assoc | reflexivity].
Qed.

(** The composer returns [composed] and leaves the state as it was. *)
Lemma prepare_headers_run headers cookies D s :
  closed s -> readable s cookies ->
  _prepare_headers headers cookies D s
  = Done (composed (headers_list headers)
            (merged_for (store_view s) (one_off s cookies) D)) s.
Proof.
  intros Hc Hr. unfold _prepare_headers.
  rewrite partition_spec. simpl app.
  unfold bind at 1, gets.
  erewrite bind_done by (apply merge_loop; exact Hc).
  fold (store_view s).
  assert (Ht : cookies_truthy cookies s = Done (nonempty (one_off s cookies)) s).
  { destruct cookies as [c|]; simpl; [|reflexivity]. unfold bind.
    rewrite (deref_run c (nth c (heap s) []) s); [reflexivity|].
    now apply nth_error_of_nth. }
  rewrite (bind_done _ _ _ _ _ Ht).
  unfold merged_for.
  destruct cookies as [c|]; simpl one_off.
  - destruct (nonempty (nth c (heap s) [])) eqn:Hne.
    + unfold bind at 1. unfold bind at 1.
      rewrite (deref_run c (nth c (heap s) []) s) by (now apply nth_error_of_nth).
      unfold ret. f_equal. apply composed_eq.
    + destruct (nth c (heap s) []); [|discriminate]. unfold bind, ret.
      f_equal. exact (composed_eq _ _).
  - simpl. unfold bind, ret. f_equal. exact (composed_eq _ _).
Qed.

Lemma wf_closed s : wf s -> closed s.
Proof. now intros (_ & _ & H & _). Qed.

Lemma arg_ok_readable s cookies : arg_ok s cookies -> readable s cookies.
Proof. destruct cookies; simpl; tauto. Qed.

Lemma wf_with_wire w s : wf s -> wf (with_wire w s).
Proof. exact (fun H => H). Qed.

(** *** The whole request *)

Section RequestRun.
Variable netloc : string -> result string.

(** A request of a client with a session, to a URL with domain [D]: the
    payload it posts and the store it leaves, for either answer. *)
Lemma request_run url headers cookies body reply s D sid :
  wf s -> arg_ok s cookies ->
  session_id s = Some sid -> truthy sid = true ->
  _extract_domain netloc url = Ok D ->
  let oneoff := one_off s cookies in
  let view1 := persisted D oneoff (store_view s) in
  let sent :=
    mkPayload url
      (composed (content_type_added body (headers_list headers))
                (merged_for view1 oneoff D)) in
  exists s',
    request netloc url headers cookies body reply s
    = match reply with
      | Some r => Done r s'
      | None => Fail RequestError s'
      end
    /\ wf s'
    /\ session_id s' = session_id s
    /\ wire s' = wire s ++ [sent]
    /\ store_view s' = match reply with
                       | Some r => ingested D r view1
                       | None => view1
                       end.
Proof.
  intros Hwf Ha Hsid Ht HD oneoff view1 sent.
  unfold request. rewrite bind_gets, Hsid, Ht.
  change (negb true) with false. cbv beta iota. rewrite HD, bind_lift_ok.
  destruct (persist_cookies_run D cookies s Hwf Ha)
    as (s1 & Hrun1 & Hwf1 & Hp1 & Hv1).
  rewrite (bind_done _ _ _ _ _ Hrun1).
  destruct (arg_ok_preserved s s1 cookies Ha Hp1) as [Ha1 Ho1].
  rewrite (bind_done _ _ _ _ _
    (prepare_headers_run _ cookies D s1 (wf_closed _ Hwf1)
       (arg_ok_readable _ _ Ha1))).
  rewrite Ho1, Hv1. fold oneoff. fold view1. simpl headers_list. fold sent.
  destruct Hp1 as (Hs1 & Hw1 & _ & _).
  unfold try_request_error. rewrite bind_modify.
  destruct reply as [r|].
  - destruct (update_cookies_run r D (with_wire (wire s1 ++ [sent]) s1)
                (wf_with_wire _ _ Hwf1)) as (s2 & Hrun2 & Hwf2 & Hp2 & Hv2).
    rewrite (bind_done _ _ _ _ _ Hrun2). unfold ret.
    destruct Hp2 as (Hs2 & Hw2 & _ & _). simpl in Hs2, Hw2.
    exists s2. split; [reflexivity|]. split; [exact Hwf2|].
    split; [congruence|]. split; [simpl in *; congruence|].
    rewrite Hv2. unfold store_view. simpl. fold (store_view s1).
    now rewrite Hv1.
  - unfold raise. exists (with_wire (wire s1 ++ [sent]) s1).
    split; [reflexivity|]. split; [exact Hwf1|].
    split; [simpl; congruence|]. split; [simpl; congruence|].
    unfold store_view. simpl. fold (store_view s1). exact Hv1.
Qed.

End RequestRun.

(** *** The getters *)

Lemma get_cookies_for_domain_run domain s :
  closed s ->
  get_cookies_for_domain domain s
  = Done (S (length (heap s)))
      (with_heap
         (heap s ++ [[]; get_or_empty (lower domain) (store_view s)]) s).
Proof.
  intros Hc. unfold get_cookies_for_domain, get_or_empty.
  rewrite view_lookup, bind_new_dict, bind_gets.
  change (_cookies (with_heap (heap s ++ [[]]) s)) with (_cookies s).
  destruct (dict_get (lower domain) (_cookies s)) as [l|] eqn:E; simpl option_map.
  - assert (Hl : l < length (heap s)).
    { unfold closed in Hc. rewrite Forall_forall in Hc. apply Hc.
      eapply store_locs_lookup; eauto. }
    unfold copy.
    erewrite bind_done
      by (apply deref_run; simpl; rewrite nth_error_app1 by exact Hl;
          now apply nth_error_of_nth).
    unfold new_dict. simpl. rewrite length_app, <- List.app_assoc. simpl.
    now rewrite Nat.add_1_r.
  - unfold copy.
    erewrite bind_done
      by (apply deref_run; simpl; rewrite nth_error_app2 by lia;
          now rewrite Nat.sub_diag).
    unfold new_dict. simpl. rewrite length_app, <- List.app_assoc. simpl.
    now rewrite Nat.add_1_r.
Qed.

(** The loop of the property [cookies]: every dict of the store is copied
    to a new address, in store order. *)
Lemma copy_loop (cs : dict loc) :
  forall acc s,
    Forall (fun l => l < length (heap s)) (map snd cs) ->
    for_acc cs acc (fun acc item =>
        let '(domain, l) := item in
        l' <- copy l ;;
        ret (dict_set domain l' acc)) s
    = Done (fold_left (fun a p => dict_set (fst p) (snd p) a)
              (combine (keys cs) (seq (length (heap s)) (length cs))) acc)
        (with_heap
           (heap s ++ map (fun item => nth (snd item) (heap s) []) cs) s).
Proof.
  induction cs as [|[k l] r IH]; intros acc s H.
  - simpl. rewrite app_nil_r. now destruct s.
  - inversion H as [|? ? Hl Hr]; subst. cbn [for_acc].
    rewrite bind_assoc.
    erewrite bind_done by (apply copy_run; now apply nth_error_of_nth).
    rewrite bind_ret, IH.
    + simpl. rewrite length_app, <- List.app_assoc. simpl.
      rewrite Nat.add_1_r. f_equal. unfold with_heap. simpl. f_equal.
      f_equal. f_equal.
      apply map_ext_in. intros [k' l'] Hin. simpl.
      apply nth_ext_error. apply nth_error_app1.
      rewrite Forall_forall in Hr. apply Hr.
      change l' with (snd (k', l')). now apply in_map.
    + simpl. eapply Forall_impl; [|exact Hr]. simpl. intros a Ha.
      rewrite length_app. lia.
Qed.

Lemma fold_dict_set_fresh {V} (l acc : dict V) :
  NoDup (keys acc ++ keys l) ->
  fold_left (fun a p => dict_set (fst p) (snd p) a) l acc = acc ++ l.
Proof.
  revert acc. induction l as [|[k v] r IH]; intros acc H; simpl.
  - now rewrite app_nil_r.
  - assert (Hk : dict_get k acc = None).
    { apply dict_get_none. intros Hin. simpl in H.
      apply NoDup_remove_2 in H. apply H. apply in_or_app. now left. }
    rewrite (dict_set_absent _ _ _ Hk), IH.
    + now rewrite <- List.app_assoc.
    + unfold keys in *. rewrite map_app. simpl in *.
      now rewrite <- List.app_assoc.
Qed.

Lemma keys_combine {V} (ks : list string) (vs : list V) :
  length ks = length vs -> keys (combine ks vs) = ks.
Proof.
  revert vs. induction ks as [|k ks IH]; intros [|v vs] H; simpl in *;
    try discriminate; [reflexivity|]. f_equal. apply IH. lia.
Qed.

(** Resolving the copies made by [cookies] in the heap it leaves gives the
    store view back. *)
Lemma resolve_copies (cs : dict loc) (h pre : list CookieMap) :
  map (fun item => (fst item, nth (snd item)
                      (h ++ pre ++ map (fun it => nth (snd it) h []) cs) []))
      (combine (keys cs) (seq (length h + length pre) (length cs)))
  = map (fun item => (fst item, nth (snd item) h [])) cs.
Proof.
  revert pre. induction cs as [|[k l] r IH]; intros pre; simpl; [reflexivity|].
  f_equal.
  - f_equal. rewrite List.app_assoc.
    rewrite <- length_app. now rewrite nth_middle.
  - specialize (IH (pre ++ [nth l h []])).
    rewrite length_app in IH. simpl in IH.
    rewrite <- List.app_assoc in IH. simpl in IH.
    now rewrite Nat.add_assoc, Nat.add_1_r in IH.
Qed.

(** Well-formedness of a concrete state, by computation. *)
Ltac wf_by_computation :=
  cbv; repeat split; repeat constructor; cbv; intuition discriminate.

(** ** The header composer *)

Lemma named_cookie_ordinary hl : filter (named "cookie") (filter ordinary hl) = [].
Proof.
  induction hl as [|kv r IH]; simpl; [reflexivity|].
  unfold ordinary at 1. destruct (named "cookie" kv) eqn:E; simpl; [exact IH|].
  destruct (named "priority" kv); simpl; [exact IH|]. now rewrite E.
Qed.

Lemma named_cookie_priority hl :
  filter (named "cookie") (filter (named "priority") hl) = [].
Proof.
  induction hl as [|kv r IH]; simpl; [reflexivity|].
  destruct (named "priority" kv) eqn:E; simpl; [|exact IH].
  unfold named in *. apply String.eqb_eq in E. rewrite E. exact IH.
Qed.

Lemma named_cookie_entry m : filter (named "cookie") (cookie_entry m) = cookie_entry m.
Proof. unfold cookie_entry. now destruct (nonempty m). Qed.

(** C1. For every header argument, store, one-off cookie argument and
    request domain, [_prepare_headers] returns exactly: the entries named
    neither [cookie] nor [priority] (up to case) in input order, then one
    composed [cookie] entry if the merged cookie mapping is not empty, then
    the entries named [priority] in input order.  The only entry of the
    output named [cookie] is the composed one: no caller-supplied Cookie
    header is passed on.  ([closed] and [readable] say that the addresses
    involved are in the heap.) *)
Theorem prepare_headers_order (headers : option HeadersType)
    (cookies : option loc) (domain : string) (s : state) :
  closed s -> readable s cookies ->
  let hl := headers_list headers in
  let merged := merged_for (store_view s) (one_off s cookies) domain in
  let composed_entry :=
    if nonempty merged
    then [("cookie", join "; " (map cookie_pair merged))] else [] in
  exists out,
    _prepare_headers headers cookies domain s = Done out s
    /\ out = filter (fun kv => negb (String.eqb (lower (fst kv)) "cookie")
                               && negb (String.eqb (lower (fst kv)) "priority"))
                    hl
             ++ composed_entry
             ++ filter (fun kv => String.eqb (lower (fst kv)) "priority") hl
    /\ filter (fun kv => String.eqb (lower (fst kv)) "cookie") out
       = composed_entry.
Proof.
  intros Hc Hr hl merged composed_entry.
  exists (composed hl merged). split; [now apply prepare_headers_run|].
  split; [reflexivity|].
  change (filter (named "cookie") (composed hl merged) = cookie_entry merged).
  unfold composed. rewrite !filter_app.
  now rewrite named_cookie_ordinary, named_cookie_priority, named_cookie_entry,
    app_nil_r.
Qed.

Lemma prepare_headers_order_witness :
  exists out,
    _prepare_headers
      (Some (HList [("Priority", "u=1"); ("Accept", "*/*"); ("COOKIE", "a=b")]))
      (Some 2) "shop.domain.com" sample_state
    = Done out sample_state
    /\ out = [("Accept", "*/*"); ("cookie", "x=2; y=0; z=5");
              ("Priority", "u=1")]
    /\ filter (fun kv => String.eqb (lower (fst kv)) "cookie") out
       = [("cookie", "x=2; y=0; z=5")].
Proof.
  apply (prepare_headers_order
           (Some (HList [("Priority", "u=1"); ("Accept", "*/*");
                         ("COOKIE", "a=b")]))
           (Some 2) "shop.domain.com" sample_state).
  - repeat constructor.
  - simpl. lia.
Defined.

(** *** The merged cookie mapping *)

Lemma view_dict_valid s d cm :
  wf s -> In (d, cm) (store_view s) -> NoDup (keys cm).
Proof.
  intros (_ & _ & Hal & Hv) Hin. unfold store_view in Hin.
  apply in_map_iff in Hin as ([k l] & E & Hin). injection E as _ <-. simpl.
  rewrite Forall_forall in Hal, Hv. apply Hv. apply nth_In. apply Hal.
  change l with (snd (k, l)). now apply in_map.
Qed.

Lemma one_off_valid s cookies : wf s -> NoDup (keys (one_off s cookies)).
Proof.
  intros (_ & _ & _ & Hv). destruct cookies as [c|]; simpl; [|constructor].
  destruct (Nat.lt_ge_cases c (length (heap s))) as [H|H].
  - rewrite Forall_forall in Hv. apply Hv. now apply nth_In.
  - rewrite nth_overflow by exact H. constructor.
Qed.

Lemma dict_get_update_inv {V} k (v : V) d o :
  dict_get k (dict_update d o) = Some v ->
  In (k, v) o \/ dict_get k d = Some v.
Proof.
  revert d. induction o as [|[k' v'] r IH]; intros d H; [now right|].
  rewrite dict_update_cons in H. destruct (IH _ H) as [Hin|Hget].
  - left. now right.
  - destruct (String.eqb_spec k' k) as [->|E].
    + rewrite dict_get_set_eq in Hget. injection Hget as ->. left. now left.
    + rewrite dict_get_set_ne in Hget by exact E. now right.
Qed.

Section Merge.
Variable D : string.

Let step (m : CookieMap) (item : string * CookieMap) : CookieMap :=
  if applies (fst item) D then dict_update m (snd item) else m.

Lemma merge_valid view m :
  NoDup (keys m) -> NoDup (keys (fold_left step view m)).
Proof.
  revert m. induction view as [|item r IH]; intros m H; simpl; [exact H|].
  apply IH. unfold step. destruct (applies (fst item) D); [|exact H].
  now apply NoDup_dict_update.
Qed.

(** Stored domains that do not apply, or do not have the name, leave its
    binding alone. *)
Lemma merge_keep k view m :
  (forall d cm, In (d, cm) view -> applies d D = true ->
                dict_get k cm = None) ->
  dict_get k (fold_left step view m) = dict_get k m.
Proof.
  revert m. induction view as [|[d cm] r IH]; intros m H; simpl;
    [reflexivity|].
  rewrite IH by (intros d' cm' Hin; apply H; now right).
  unfold step. simpl. destruct (applies d D) eqn:E; [|reflexivity].
  apply dict_get_update_absent. apply (H d cm); [now left | exact E].
Qed.

(** Every binding of the merge comes from the start or from a stored
    domain that applies. *)
Lemma merge_inv k v view m :
  dict_get k (fold_left step view m) = Some v ->
  dict_get k m = Some v
  \/ exists d cm, In (d, cm) view /\ applies d D = true /\ In (k, v) cm.
Proof.
  revert m. induction view as [|[d cm] r IH]; intros m H; simpl in H;
    [now left|].
  destruct (IH _ H) as [Hm|(d' & cm' & Hin & Ha & Hk)].
  - unfold step in Hm. simpl in Hm. destruct (applies d D) eqn:E.
    + destruct (dict_get_update_inv _ _ _ _ Hm) as [Hin|Hget];
        [|now left].
      right. exists d, cm. repeat split; auto. now left.
    + now left.
  - right. exists d', cm'. repeat split; auto. now right.
Qed.

End Merge.

(** A joined string contains each of its pieces. *)
Lemma in_join sep x l :
  In x l -> exists pre post, join sep l = (pre ++ x ++ post)%string.
Proof.
  unfold join. induction l as [|y r IH]; [intros []|].
  intros [->|H].
  - exists "". destruct r as [|z r'].
    + exists "". simpl. now rewrite append_nil_r.
    + now exists (sep ++ String.concat sep (z :: r'))%string.
  - destruct (IH H) as (pre & post & E). destruct r as [|z r']; [elim H|].
    exists (y ++ sep ++ pre)%string, post.
    change (String.concat sep (y :: z :: r'))
      with (y ++ sep ++ String.concat sep (z :: r'))%string.
    now rewrite E, !append_assoc.
Qed.

(** C2. The cookie header value is composed from the merged mapping, which
    is built from the stored domains that equal the request domain or are a
    parent domain of it, laid over each other in store order, with the
    one-off cookies laid over last.  Every pair of it comes from the
    one-off cookies or from such a stored domain; a name the one-off
    cookies do not have carries the value of the last such stored domain
    that has it; and a name of the one-off cookies occurs once, with the
    one-off value, never with a stored value. *)
Theorem one_off_cookies_win (headers : option HeadersType)
    (cookies : option loc) (domain : string) (s : state) :
  wf s -> readable s cookies ->
  let view := store_view s in
  let oneoff := one_off s cookies in
  exists merged out,
    _prepare_headers headers cookies domain s = Done out s
    /\ merged
       = dict_update
           (fold_left (fun m item =>
              if String.eqb (fst item) domain
                 || _domain_matches (fst item) domain
              then dict_update m (snd item) else m) view [])
           oneoff
    /\ (nonempty merged = true ->
        In ("cookie", join "; " (map cookie_pair merged)) out)
    /\ (nonempty merged = false ->
        forall kv, In kv out -> lower (fst kv) <> "cookie")
    /\ NoDup (keys merged)
    /\ (forall k v, In (k, v) merged ->
          In (k, v) oneoff
          \/ exists d cm, In (d, cm) view
               /\ (d = domain \/ _domain_matches d domain = true)
               /\ In (k, v) cm)
    /\ (forall pre d cm post k v,
          view = pre ++ (d, cm) :: post ->
          (d = domain \/ _domain_matches d domain = true) ->
          In (k, v) cm ->
          (forall d' cm', In (d', cm') post ->
             d' = domain \/ _domain_matches d' domain = true ->
             ~ In k (keys cm')) ->
          ~ In k (keys oneoff) ->
          In (k, v) merged)
    /\ (forall k v, In (k, v) oneoff ->
          In (k, v) merged
          /\ (forall v', In (k, v') merged -> v' = v)
          /\ exists pre post,
               join "; " (map cookie_pair merged)
               = (pre ++ (k ++ "=" ++ v) ++ post)%string).
Proof.
  intros Hwf Hr view oneoff.
  assert (Happ : forall d, applies d domain = true <->
                           d = domain \/ _domain_matches d domain = true).
  { intros d. unfold applies. rewrite orb_true_iff, String.eqb_eq. tauto. }
  set (merged := merged_for view oneoff domain).
  assert (Hnd : NoDup (keys merged)).
  { apply NoDup_dict_update. apply merge_valid. constructor. }
  assert (Ho : NoDup (keys oneoff)) by now apply one_off_valid.
  exists merged, (composed (headers_list headers) merged).
  split; [apply prepare_headers_run; [now apply wf_closed | exact Hr]|].
  split; [reflexivity|].
  split; [|split; [|split; [exact Hnd|split; [|split]]]].
  - intros Hne. unfold composed, cookie_entry. rewrite Hne.
    apply in_or_app. right. now left.
  - intros Hne [k v] Hin Hk. unfold composed, cookie_entry in Hin.
    rewrite Hne in Hin. simpl in Hin, Hk.
    apply in_app_or in Hin as [Hin|Hin]; apply filter_In in Hin as [_ Hf].
    + unfold ordinary, named in Hf. simpl in Hf. rewrite Hk in Hf. discriminate.
    + unfold named in Hf. simpl in Hf. rewrite Hk in Hf. discriminate.
  - intros k v Hin. apply (in_dict_get _ _ _ Hnd) in Hin.
    destruct (dict_get_update_inv _ _ _ _ Hin) as [H|H]; [now left|].
    apply merge_inv in H as [H|(d & cm & H1 & H2 & H3)]; [discriminate|].
    right. exists d, cm. rewrite <- Happ. auto.
  - intros pre d cm post k v Hview Hd Hk Hpost Hone.
    apply dict_get_in. unfold merged, merged_for.
    rewrite dict_get_update_absent by (now apply dict_get_none).
    rewrite Hview, fold_left_app. simpl.
    rewrite merge_keep.
    + apply Happ in Hd. rewrite Hd. apply dict_get_update_in; [|exact Hk].
      apply (view_dict_valid s d cm Hwf). fold view. rewrite Hview.
      apply in_or_app. right. now left.
    + intros d' cm' Hin Ha. apply dict_get_none.
      apply (Hpost d' cm' Hin). now apply Happ.
  - intros k v Hin.
    assert (Hget : dict_get k merged = Some v)
      by (now apply dict_get_update_in).
    split; [now apply dict_get_in|]. split.
    + intros v' Hin'. apply (in_dict_get _ _ _ Hnd) in Hin'. congruence.
    + apply (in_join "; " (cookie_pair (k, v))).
      apply in_map. now apply dict_get_in.
Qed.

Lemma one_off_cookies_win_witness :
  exists merged out,
    _prepare_headers None (Some 2) "shop.domain.com" sample_state
    = Done out sample_state
    /\ merged = [("x", "2"); ("y", "0"); ("z", "5")]
    /\ In ("cookie", "x=2; y=0; z=5") out
    /\ In ("x", "2") merged
    /\ (forall v', In ("x", v') merged -> v' = "2")
    /\ exists pre post,
         join "; " (map cookie_pair merged) = (pre ++ "x=2" ++ post)%string.
Proof.
  assert (Hwf : wf sample_state) by wf_by_computation.
  assert (Hr : readable sample_state (Some 2)) by (simpl; lia).
  destruct (one_off_cookies_win None (Some 2) "shop.domain.com" sample_state
              Hwf Hr) as (merged & out & Hrun & Hm & Hc & _ & _ & _ & _ & Hone).
  exists merged, out. split; [exact Hrun|]. split; [exact Hm|].
  split; [subst merged; now apply Hc|].
  apply Hone. simpl. now left.
Defined.

(** C9. [_prepare_headers] is pure and total: on every input it returns,
    raising nothing, and leaves the whole state as it was (the store, the
    heap with the caller's dict, the session and the wire); run twice in a
    row on the same arguments it returns the same list twice.  The two
    hypotheses only say that the addresses involved are in the heap, as
    every reference of a running program is. *)
Theorem prepare_headers_pure (headers : option HeadersType)
    (cookies : option loc) (domain : string) (s : state) :
  closed s -> readable s cookies ->
  exists out,
    _prepare_headers headers cookies domain s = Done out s
    /\ (first <- _prepare_headers headers cookies domain ;;
        second <- _prepare_headers headers cookies domain ;;
        ret (first, second)) s
       = Done (out, out) s.
Proof.
  intros Hc Hr.
  pose proof (prepare_headers_run headers cookies domain s Hc Hr) as Hrun.
  eexists. split; [exact Hrun|].
  now rewrite (bind_done _ _ _ _ _ Hrun), (bind_done _ _ _ _ _ Hrun).
Qed.

Lemma prepare_headers_pure_witness :
  exists out,
    _prepare_headers (Some (HDict [("Accept", "*/*"); ("priority", "u=0")]))
      (Some 2) "domain.com" sample_state
    = Done out sample_state
    /\ (first <- _prepare_headers
                   (Some (HDict [("Accept", "*/*"); ("priority", "u=0")]))
                   (Some 2) "domain.com" ;;
        second <- _prepare_headers
                    (Some (HDict [("Accept", "*/*"); ("priority", "u=0")]))
                    (Some 2) "domain.com" ;;
        ret (first, second)) sample_state
       = Done (out, out) sample_state.
Proof.
  apply (prepare_headers_pure
           (Some (HDict [("Accept", "*/*"); ("priority", "u=0")]))
           (Some 2) "domain.com" sample_state).
  - repeat constructor.
  - simpl. lia.
Defined.

(** ** Response ingestion *)

(** C5. Ingestion is total: for every response and request domain it
    returns without raising, and so does [_parse_set_cookie] on every list
    of strings.  When the first [;]-delimited segment of every Set-Cookie
    value of the response has no [=], the state, and so the store, is left
    exactly as it was; this is so for the value [garbage-no-equals]. *)
Theorem ingestion_total (headers : dict (list string))
    (request_domain : string) (s : state) :
  wf s ->
  (exists s', _update_cookies_from_response headers request_domain s
              = Done tt s')
  /\ (forall values, exists cs, _parse_set_cookie values = Ok cs)
  /\ ((forall raw, In raw (set_cookie_values headers) ->
         contains "=" (hd "" (split ";" raw)) = false) ->
      _update_cookies_from_response headers request_domain s = Done tt s)
  /\ _update_cookies_from_response
       [("Set-Cookie", ["garbage-no-equals"])] request_domain s
     = Done tt s.
Proof.
  intros Hwf. split; [|split; [|split]].
  - destruct (update_cookies_run headers request_domain s Hwf)
      as (s' & Hrun & _). now exists s'.
  - intros values. eexists. apply parse_set_cookie_spec.
  - intros Hall. apply update_cookies_nothing.
    induction (set_cookie_values headers) as [|raw r IH]; [reflexivity|].
    simpl. rewrite IH by (intros raw' Hin; apply Hall; now right).
    rewrite app_nil_r.
    destruct (split_cons ";" raw) as (seg0 & segs & E).
    apply (parsed_malformed raw seg0 segs E).
    specialize (Hall raw (or_introl eq_refl)). now rewrite E in Hall.
  - now apply update_cookies_nothing.
Qed.

Lemma ingestion_total_witness :
  (exists s', _update_cookies_from_response
                [("set-cookie", ["a=1; Path=/"; "no-equals; b=2"])]
                "api.example.com" sample_state
              = Done tt s')
  /\ _update_cookies_from_response
       [("Set-Cookie", ["garbage-no-equals"])] "api.example.com" sample_state
     = Done tt sample_state.
Proof.
  assert (Hwf : wf sample_state) by wf_by_computation.
  destruct (ingestion_total
              [("set-cookie", ["a=1; Path=/"; "no-equals; b=2"])]
              "api.example.com" sample_state Hwf) as (H1 & _ & _ & H4).
  split; [exact H1 | exact H4].
Defined.

(** One well-formed Set-Cookie value: its cookie goes to the store. *)
Lemma single_set_cookie_run name raw seg0 segs n v R s :
  wf s -> lower name = "set-cookie" ->
  split ";" raw = seg0 :: segs -> cut "=" (strip seg0) = Some (n, v) ->
  exists s',
    _update_cookies_from_response [(name, [raw])] R s = Done tt s'
    /\ wf s'
    /\ store_view s'
       = store_put (storage_domain (declared_domain segs) R)
           (strip n) (strip v) (store_view s).
Proof.
  intros Hwf Hname Hsplit Hcut.
  destruct (update_cookies_run [(name, [raw])] R s Hwf)
    as (s' & Hrun & Hwf' & _ & Hview).
  exists s'. split; [exact Hrun|]. split; [exact Hwf'|].
  rewrite Hview. unfold ingested, set_cookie_values. simpl.
  rewrite Hname. simpl. unfold parsed. now rewrite Hsplit, Hcut.
Qed.

Lemma store_put_binding D n v view :
  In D (keys (store_put D n v view))
  /\ dict_get n (get_or_empty D (store_put D n v view)) = Some v.
Proof.
  unfold store_put, get_or_empty. rewrite dict_get_set_eq.
  split; [|apply dict_get_set_eq].
  pose proof (dict_get_set_eq D (dict_set n v (get_or_empty D view)) view) as H.
  apply dict_get_in in H. change D with (fst (D, dict_set n v (get_or_empty D view))).
  unfold keys. apply in_map. exact H.
Qed.

Lemma first_segment_cut seg0 :
  contains "=" seg0 = true ->
  exists n v, cut "=" (strip seg0) = Some (n, v)
              /\ strip seg0 = (n ++ "=" ++ v)%string
              /\ contains "=" n = false.
Proof.
  intros H. rewrite <- (contains_strip "=" seg0 eq_refl) in H.
  destruct (cut "=" (strip seg0)) as [[n v]|] eqn:E.
  - exists n, v. split; [reflexivity|]. now apply cut_some.
  - apply cut_none in E. congruence.
Qed.

(** C4. A Set-Cookie value whose first [;]-delimited segment contains an
    [=] is stored: the name is the trimmed text before the first [=] of
    that segment, the value the trimmed text after it; the storage domain
    is the value of the first segment that starts with [domain=] up to
    case, trimmed, lower-cased and without one leading dot, when there is
    such a segment and this is not empty, and the request domain otherwise.
    In particular, after the value
    [sid=abc123; Domain=.example.com; Path=/; HttpOnly] from a request to
    [shop.example.com], [get_cookies_for_domain "example.com"] has
    [sid = abc123]. *)
Theorem set_cookie_stored (request_domain : string) (s : state) :
  wf s ->
  (forall name raw seg0 segs,
     lower name = "set-cookie" ->
     split ";" raw = seg0 :: segs ->
     contains "=" seg0 = true ->
     exists n v s',
       strip seg0 = (n ++ "=" ++ v)%string /\ contains "=" n = false
       /\ _update_cookies_from_response [(name, [raw])] request_domain s
          = Done tt s'
       /\ let declared :=
            match find (fun seg => startswith (lower (strip seg)) "domain=")
                       segs with
            | Some seg =>
                let d := lower (strip (sdrop 7 (strip seg))) in
                if startswith d "." then tail d else d
            | None => ""
            end in
          let D := if String.eqb declared "" then request_domain
                   else declared in
          store_view s'
          = dict_set D
              (dict_set (strip n) (strip v) (get_or_empty D (store_view s)))
              (store_view s)
          /\ dict_get (strip n) (get_or_empty D (store_view s'))
             = Some (strip v))
  /\ exists s1 l s2 cm,
       _update_cookies_from_response
         [("Set-Cookie",
           ["sid=abc123; Domain=.example.com; Path=/; HttpOnly"])]
         "shop.example.com" s = Done tt s1
       /\ get_cookies_for_domain "example.com" s1 = Done l s2
       /\ nth_error (heap s2) l = Some cm
       /\ dict_get "sid" cm = Some "abc123".
Proof.
  intros Hwf. split.
  - intros name raw seg0 segs Hname Hsplit Hc.
    destruct (first_segment_cut seg0 Hc) as (n & v & Hcut & Hseg & Hn).
    destruct (single_set_cookie_run name raw seg0 segs n v request_domain s
                Hwf Hname Hsplit Hcut) as (s' & Hrun & _ & Hview).
    exists n, v, s'. split; [exact Hseg|]. split; [exact Hn|].
    split; [exact Hrun|].
    change (match find _ segs with Some _ => _ | None => _ end)
      with (declared_domain segs).
    assert (HD : (if String.eqb (declared_domain segs) "" then request_domain
                  else declared_domain segs)
                 = storage_domain (declared_domain segs) request_domain).
    { unfold storage_domain. now destruct (declared_domain segs). }
    cbv zeta. rewrite HD. split; [exact Hview|].
    rewrite Hview. apply store_put_binding.
  - destruct (single_set_cookie_run "Set-Cookie"
                "sid=abc123; Domain=.example.com; Path=/; HttpOnly"
                "sid=abc123" [" Domain=.example.com"; " Path=/"; " HttpOnly"]
                "sid" "abc123" "shop.example.com" s Hwf
                eq_refl eq_refl eq_refl) as (s1 & Hrun & Hwf1 & Hview).
    exists s1. eexists _, _, (get_or_empty "example.com" (store_view s1)).
    split; [exact Hrun|].
    split; [apply get_cookies_for_domain_run; now apply wf_closed|].
    split.
    + unfold with_heap. cbn [heap]. rewrite nth_error_app2 by lia.
      replace (S (length (heap s1)) - length (heap s1)) with 1 by lia.
      reflexivity.
    + rewrite Hview.
      exact (proj2 (store_put_binding "example.com" "sid" "abc123" _)).
Qed.

Lemma set_cookie_stored_witness :
  (exists n v s',
     strip "tok=zzz" = (n ++ "=" ++ v)%string /\ contains "=" n = false
     /\ _update_cookies_from_response [("SET-COOKIE", ["tok=zzz; Path=/"])]
          "api.example.com" sample_state = Done tt s'
     /\ store_view s'
        = dict_set "api.example.com"
            (dict_set (strip n) (strip v)
               (get_or_empty "api.example.com" (store_view sample_state)))
            (store_view sample_state)
        /\ dict_get (strip n) (get_or_empty "api.example.com" (store_view s'))
           = Some (strip v))
  /\ exists s1 l s2 cm,
       _update_cookies_from_response
         [("Set-Cookie",
           ["sid=abc123; Domain=.example.com; Path=/; HttpOnly"])]
         "shop.example.com" sample_state = Done tt s1
       /\ get_cookies_for_domain "example.com" s1 = Done l s2
       /\ nth_error (heap s2) l = Some cm
       /\ dict_get "sid" cm = Some "abc123".
Proof.
  assert (Hwf : wf sample_state) by wf_by_computation.
  split.
  - exact (proj1 (set_cookie_stored "api.example.com" sample_state Hwf)
             "SET-COOKIE" "tok=zzz; Path=/" "tok=zzz" [" Path=/"]
             eq_refl eq_refl eq_refl).
  - exact (proj2 (set_cookie_stored "shop.example.com" sample_state Hwf)).
Defined.

(** C10. Ingestion does not compare a declared domain with the request
    domain: whatever the request domain, and so also when
    [_domain_matches] of the two is false, a Set-Cookie value that declares
    a non-empty domain is stored under the declared domain; when the store
    has no such key yet, the response adds an entry for that domain. *)
Theorem declared_domain_not_checked (name raw seg0 : string)
    (segs : list string) (request_domain : string) (s : state) :
  wf s ->
  lower name = "set-cookie" ->
  split ";" raw = seg0 :: segs ->
  contains "=" seg0 = true ->
  declared_domain segs <> "" ->
  exists n v s',
    cut "=" (strip seg0) = Some (n, v)
    /\ _update_cookies_from_response [(name, [raw])] request_domain s
       = Done tt s'
    /\ store_view s'
       = store_put (declared_domain segs) (strip n) (strip v) (store_view s)
    /\ In (declared_domain segs) (keys (store_view s'))
    /\ dict_get (strip n) (get_or_empty (declared_domain segs) (store_view s'))
       = Some (strip v)
    /\ (dict_get (declared_domain segs) (store_view s) = None ->
        store_view s'
        = store_view s ++ [(declared_domain segs, [(strip n, strip v)])]).
Proof.
  intros Hwf Hname Hsplit Hc Hd.
  destruct (first_segment_cut seg0 Hc) as (n & v & Hcut & _ & _).
  destruct (single_set_cookie_run name raw seg0 segs n v request_domain s
              Hwf Hname Hsplit Hcut) as (s' & Hrun & _ & Hview).
  assert (HD : storage_domain (declared_domain segs) request_domain
               = declared_domain segs).
  { unfold storage_domain. destruct (declared_domain segs); [now elim Hd|].
    reflexivity. }
  rewrite HD in Hview.
  exists n, v, s'. split; [exact Hcut|]. split; [exact Hrun|].
  split; [exact Hview|]. rewrite Hview.
  split; [apply store_put_binding|]. split; [apply store_put_binding|].
  intros Habs. unfold store_put, get_or_empty. rewrite Habs.
  now apply dict_set_absent.
Qed.

Lemma declared_domain_not_checked_witness :
  _domain_matches "evil.org" "shop.example.com" = false
  /\ exists n v s',
       cut "=" (strip "sid=1") = Some (n, v)
       /\ _update_cookies_from_response
            [("Set-Cookie", ["sid=1; Domain=evil.org"])]
            "shop.example.com" sample_state = Done tt s'
       /\ store_view s'
          = store_put "evil.org" (strip n) (strip v) (store_view sample_state)
       /\ In "evil.org" (keys (store_view s'))
       /\ dict_get (strip n) (get_or_empty "evil.org" (store_view s'))
          = Some (strip v)
       /\ (dict_get "evil.org" (store_view sample_state) = None ->
           store_view s'
           = store_view sample_state ++ [("evil.org", [(strip n, strip v)])]).
Proof.
  split; [reflexivity|].
  apply (declared_domain_not_checked "Set-Cookie" "sid=1; Domain=evil.org"
           "sid=1" [" Domain=evil.org"] "shop.example.com" sample_state).
  - wf_by_computation.
  - reflexivity.
  - reflexivity.
  - reflexivity.
  - discriminate.
Defined.

(** ** The getters *)

Lemma snd_combine {A B} (ks : list A) (vs : list B) :
  length ks = length vs -> map snd (combine ks vs) = vs.
Proof.
  revert vs. induction ks as [|k ks IH]; intros [|v vs] H; simpl in *;
    try discriminate; [reflexivity|]. f_equal. apply IH. lia.
Qed.

(** A heap that agrees with the heap of [s] on the dicts of the store gives
    the view of [s]. *)
Lemma view_frame s h :
  (forall l, In l (store_locs s) -> nth_error h l = nth_error (heap s) l) ->
  store_view (with_heap h s) = store_view s.
Proof. intros H. unfold store_view. simpl. now apply view_ext. Qed.

(** C8. [get_cookies_for_domain] returns a dict with the entries stored
    under the lower-cased domain, or with none when the domain is not a
    key; the property [cookies] returns a dict that maps every stored
    domain, in store order, to a dict with the entries of that domain.
    Both leave the store as it was.  The dicts returned are new objects,
    distinct from each other and from every dict of the store: whatever is
    done to them afterwards, the store keeps its contents. *)
Theorem getters_return_copies (s : state) :
  wf s ->
  (forall domain,
     exists l s',
       get_cookies_for_domain domain s = Done l s'
       /\ nth_error (heap s') l
          = Some (match dict_get (lower domain) (store_view s) with
                  | Some cm => cm
                  | None => []
                  end)
       /\ ~ In l (store_locs s')
       /\ _cookies s' = _cookies s
       /\ store_view s' = store_view s
       /\ forall h,
            (forall i, i <> l -> nth_error h i = nth_error (heap s') i) ->
            store_view (with_heap h s') = store_view s)
  /\ exists snapshot s',
       cookies s = Done snapshot s'
       /\ map (fun item => (fst item, nth (snd item) (heap s') [])) snapshot
          = store_view s
       /\ NoDup (map snd snapshot)
       /\ (forall l, In l (map snd snapshot) -> ~ In l (store_locs s'))
       /\ _cookies s' = _cookies s
       /\ store_view s' = store_view s
       /\ forall h,
            (forall i, ~ In i (map snd snapshot) ->
                       nth_error h i = nth_error (heap s') i) ->
            store_view (with_heap h s') = store_view s.
Proof.
  intros Hwf. pose proof (wf_closed s Hwf) as Hc.
  assert (Hlt : forall l, In l (store_locs s) -> l < length (heap s)).
  { unfold closed in Hc. now rewrite Forall_forall in Hc. }
  split.
  - intros domain. eexists _, _.
    split; [now apply get_cookies_for_domain_run|].
    unfold with_heap, store_locs. cbn [heap _cookies].
    split; [|split; [|split; [reflexivity|split]]].
    + rewrite nth_error_app2 by lia.
      replace (S (length (heap s)) - length (heap s)) with 1 by lia.
      reflexivity.
    + intros Hin. apply Hlt in Hin. lia.
    + apply (view_frame s). intros l Hl. apply nth_error_app1. now apply Hlt.
    + intros h Hh. apply (view_frame s). intros l Hl.
      rewrite Hh by (apply Hlt in Hl; lia).
      cbn [heap]. apply nth_error_app1. now apply Hlt.
  - set (n := length (heap s)).
    assert (Hlen : length (keys (_cookies s))
                   = length (seq n (length (_cookies s)))).
    { unfold keys. now rewrite length_map, length_seq. }
    pose proof (copy_loop (_cookies s) [] s Hc) as Hrun.
    rewrite fold_dict_set_fresh in Hrun
      by (simpl; rewrite keys_combine by exact Hlen; apply Hwf).
    simpl app in Hrun. fold n in Hrun.
    rewrite (Hrun : cookies s = _).
    eexists _, _. split; [reflexivity|].
    unfold with_heap, store_locs. cbn [heap _cookies].
    rewrite snd_combine by exact Hlen.
    split; [|split; [apply seq_NoDup|split; [|split; [reflexivity|split]]]].
    + pose proof (resolve_copies (_cookies s) (heap s) []) as R.
      simpl in R. rewrite Nat.add_0_r in R. exact R.
    + intros l Hl Hin. apply in_seq in Hl. apply Hlt in Hin. unfold n in Hl. lia.
    + apply (view_frame s). intros l Hl. apply nth_error_app1. now apply Hlt.
    + intros h Hh. apply (view_frame s). intros l Hl.
      rewrite Hh.
      * cbn [heap]. apply nth_error_app1. now apply Hlt.
      * intros Hin. apply in_seq in Hin. apply Hlt in Hl. unfold n in Hin. lia.
Qed.

Lemma getters_return_copies_witness :
  (exists l s',
     get_cookies_for_domain "Domain.COM" sample_state = Done l s'
     /\ nth_error (heap s') l = Some [("x", "9"); ("z", "5")]
     /\ forall h,
          (forall i, i <> l -> nth_error h i = nth_error (heap s') i) ->
          store_view (with_heap h s') = store_view sample_state)
  /\ exists snapshot s',
       cookies sample_state = Done snapshot s'
       /\ map (fun item => (fst item, nth (snd item) (heap s') [])) snapshot
          = store_view sample_state
       /\ forall h,
            (forall i, ~ In i (map snd snapshot) ->
                       nth_error h i = nth_error (heap s') i) ->
            store_view (with_heap h s') = store_view sample_state.
Proof.
  assert (Hwf : wf sample_state) by wf_by_computation.
  destruct (getters_return_copies sample_state Hwf) as [Hget Hall].
  split.
  - destruct (Hget "Domain.COM") as (l & s' & H1 & H2 & _ & _ & _ & H6).
    exists l, s'. split; [exact H1|]. split; [exact H2 | exact H6].
  - destruct Hall as (snapshot & s' & H1 & H2 & _ & _ & _ & _ & H7).
    exists snapshot, s'. split; [exact H1|]. split; [exact H2 | exact H7].
Defined.

(** ** The keys of the store *)

Lemma keys_view s : keys (store_view s) = keys (_cookies s).
Proof.
  unfold store_view, keys. rewrite map_map. now apply map_ext.
Qed.

Section KeyInvariant.
Variable P : string -> Prop.

Lemma keys_set_inv {V} D (x : V) (d : dict V) :
Forall P (keys d) -> P D -> Forall P (keys (dict_set D x d)).
Proof.
intros H HD. rewrite keys_dict_set. destruct (dict_mem D d); [exact H|].
apply Forall_app. split; [exact H | now repeat constructor].
Qed.

Lemma keys_persisted_inv D oneoff view :
Forall P (keys view) -> P D -> Forall P (keys (persisted D oneoff view)).
Proof.
intros H HD. unfold persisted. destruct (nonempty oneoff); [|exact H].
now apply keys_set_inv.
Qed.

Lemma keys_ingested_inv R headers view :
Forall P (keys view) ->
(forall raw n v d, In raw (set_cookie_values headers) ->
                   In (n, v, d) (parsed raw) -> P (storage_domain d R)) ->
Forall P (keys (ingested R headers view)).
Proof.
unfold ingested. generalize (set_cookie_values headers) as raws.
intros raws. revert view.
induction raws as [|raw r IH]; intros view H Hall; [exact H|].
simpl. rewrite fold_left_app. apply IH.
- assert (Hraw : forall n v d, In (n, v, d) (parsed raw) ->
                               P (storage_domain d R)).
  { intros n v d Hin. apply (Hall raw n v d); [now left | exact Hin]. }
  clear Hall IH. revert view H.
  induction (parsed raw) as [|[[n v] d] cs IHc]; intros view H; [exact H|].
  simpl. apply IHc.
  + intros n' v' d' Hin. apply (Hraw n' v' d'). now right.
  + unfold store_put. apply keys_set_inv; [exact H|].
    apply (Hraw n v d). now left.
- intros raw' n v d Hin. apply Hall. now right.
Qed.

End KeyInvariant.

Lemma lower_tail s : lower (tail s) = tail (lower s).
Proof. now destruct s. Qed.

Lemma startswith_dot s :
  startswith s "." = match s with
                     | EmptyString => false
                     | String c _ => Ascii.eqb c "."
                     end.
Proof.
  destruct s as [|c r]; [reflexivity|]. unfold startswith. cbn [prefix].
  destruct (ascii_dec "." c) as [<-|E]; [now destruct r|].
  symmetry. apply Ascii.eqb_neq. congruence.
Qed.

Lemma startswith_two_dots s :
  startswith s ".." = startswith s "." && startswith (tail s) ".".
Proof.
  destruct s as [|c r]; [reflexivity|].
  rewrite (startswith_dot (String c r)). simpl tail. rewrite startswith_dot.
  unfold startswith. cbn [prefix].
  destruct (ascii_dec "." c) as [<-|E].
  - rewrite Ascii.eqb_refl. cbn [andb]. destruct r as [|c' r']; [reflexivity|].
    cbn [prefix].
    destruct (ascii_dec "." c') as [<-|E']; [now destruct r'|].
    symmetry. apply Ascii.eqb_neq. congruence.
  - assert (Ascii.eqb c "." = false) as -> by (apply Ascii.eqb_neq; congruence).
    reflexivity.
Qed.

Lemma startswith_dot_lower s : startswith (lower s) "." = startswith s ".".
Proof.
  rewrite !startswith_dot. destruct s as [|c r]; [reflexivity|].
  simpl. apply lower_char_dot.
Qed.

(** The declared domain is lower-cased. *)
Lemma declared_domain_lower segs :
  lower (declared_domain segs) = declared_domain segs.
Proof.
  unfold declared_domain. destruct (find is_domain_attr segs); [|reflexivity].
  cbv zeta. destruct (startswith _ ".").
  - now rewrite lower_tail, lower_idem.
  - apply lower_idem.
Qed.

(** It starts with a dot only when the attribute starts with two. *)
Lemma declared_domain_dot segs :
  startswith (declared_domain segs) "."
  = match find is_domain_attr segs with
    | Some seg => startswith (strip (sdrop 7 (strip seg))) ".."
    | None => false
    end.
Proof.
  unfold declared_domain. destruct (find is_domain_attr segs) as [seg|];
    [|reflexivity].
  cbv zeta. set (a := strip (sdrop 7 (strip seg))).
  rewrite startswith_two_dots, <- (startswith_dot_lower a).
  destruct (startswith (lower a) ".") eqn:E; simpl.
  - rewrite <- lower_tail. apply startswith_dot_lower.
  - exact E.
Qed.

Lemma parsed_domain raw n v d :
  In (n, v, d) (parsed raw) -> d = declared_domain (List.tl (split ";" raw)).
Proof.
  unfold parsed. destruct (split ";" raw) as [|seg0 segs]; [intros []|].
  destruct (cut "=" (strip seg0)) as [[a b]|]; [|intros []].
  intros [H|[]]. now injection H as _ _ <-.
Qed.

Lemma storage_domain_lower d R :
  lower d = d -> lower R = R ->
  lower (storage_domain d R) = storage_domain d R.
Proof. unfold storage_domain. now destruct (truthy d). Qed.

Lemma storage_domain_dot d R :
  startswith d "." = false -> startswith R "." = false ->
  startswith (storage_domain d R) "." = false.
Proof. unfold storage_domain. now destruct (truthy d). Qed.

Lemma parsed_lower raw n v d R :
  lower R = R -> In (n, v, d) (parsed raw) ->
  lower (storage_domain d R) = storage_domain d R.
Proof.
  intros HR Hin. apply storage_domain_lower; [|exact HR].
  rewrite (parsed_domain _ _ _ _ Hin). apply declared_domain_lower.
Qed.

Lemma parsed_undotted raw n v d R :
  startswith R "." = false -> single_dot raw -> In (n, v, d) (parsed raw) ->
  startswith (storage_domain d R) "." = false.
Proof.
  intros HR Hs Hin. apply storage_domain_dot; [|exact HR].
  rewrite (parsed_domain _ _ _ _ Hin), declared_domain_dot.
  unfold single_dot, domain_attribute in Hs.
  destruct (find is_domain_attr (List.tl (split ";" raw))) as [seg|];
    [|reflexivity].
  now apply Hs.
Qed.

(** C6, as the code has it.  Every operation that writes to the store
    keeps its keys lower-cased: response ingestion for a lower-cased
    request domain, and a whole request, whose domain [_extract_domain]
    lower-cases.  The keys stay without a leading dot when the request
    domain has none and the Domain attribute of every Set-Cookie value
    starts with at most one dot. *)
Theorem store_keys_invariant (s : state) :
  wf s ->
  (forall headers request_domain,
     lower request_domain = request_domain ->
     exists s',
       _update_cookies_from_response headers request_domain s = Done tt s'
       /\ (keys_lower s -> keys_lower s')
       /\ (keys_undotted s ->
           startswith request_domain "." = false ->
           (forall raw, In raw (set_cookie_values headers) ->
                        single_dot raw) ->
           keys_undotted s'))
  /\ (forall netloc url headers cookies body reply D sid,
        arg_ok s cookies ->
        session_id s = Some sid -> truthy sid = true ->
        _extract_domain netloc url = Ok D ->
        let s' := final (request netloc url headers cookies body reply s) in
        (keys_lower s -> keys_lower s')
        /\ (keys_undotted s ->
            startswith D "." = false ->
            (forall r raw, reply = Some r -> In raw (set_cookie_values r) ->
                           single_dot raw) ->
            keys_undotted s')).
Proof.
  intros Hwf. split.
  - intros headers R HR.
    destruct (update_cookies_run headers R s Hwf) as (s' & Hrun & _ & _ & Hv).
    exists s'. split; [exact Hrun|].
    unfold keys_lower, keys_undotted. rewrite <- !keys_view, Hv. split.
    + intros H. apply keys_ingested_inv; [exact H|].
      intros raw n v d _ Hin. now apply (parsed_lower raw n v d R).
    + intros H Hdot Hall. apply keys_ingested_inv; [exact H|].
      intros raw n v d Hraw Hin.
      apply (parsed_undotted raw n v d R); auto.
  - intros netloc url headers cookies body reply D sid Ha Hsid Ht HD s'.
    destruct (request_run netloc url headers cookies body reply s D sid
                Hwf Ha Hsid Ht HD) as (s1 & Hrun & _ & _ & _ & Hv).
    assert (Hs' : s' = s1).
    { unfold s'. rewrite Hrun. now destruct reply. }
    rewrite Hs'. clear s' Hs'.
    assert (HDl : lower D = D).
    { unfold _extract_domain in HD. destruct (netloc url); [|discriminate].
      injection HD as <-. apply lower_idem. }
    unfold keys_lower, keys_undotted. rewrite <- !keys_view, Hv. split.
    + intros H. destruct reply as [r|].
      * apply keys_ingested_inv; [now apply keys_persisted_inv|].
        intros raw n v d _ Hin. now apply (parsed_lower raw n v d D).
      * now apply keys_persisted_inv.
    + intros H Hdot Hall. destruct reply as [r|].
      * apply keys_ingested_inv; [now apply keys_persisted_inv|].
        intros raw n v d Hraw Hin.
        apply (parsed_undotted raw n v d D); auto. now apply (Hall r).
      * now apply keys_persisted_inv.
Qed.

Lemma store_keys_invariant_witness :
  (exists s',
     _update_cookies_from_response
       [("Set-Cookie", ["a=b; Domain=.Example.COM"; "c=d"])]
       "shop.example.com" sample_state = Done tt s'
     /\ (keys_lower sample_state -> keys_lower s')
     /\ (keys_undotted sample_state ->
         startswith "shop.example.com" "." = false ->
         (forall raw,
            In raw (set_cookie_values
                      [("Set-Cookie", ["a=b; Domain=.Example.COM"; "c=d"])]) ->
            single_dot raw) ->
         keys_undotted s'))
  /\ (keys_lower fresh_state ->
      keys_lower (final (request https_netloc "https://Shop.Example.com/x"
                           None (Some 0) BodyContent
                           (Some [("Set-Cookie", ["a=b; Domain=.Example.COM"])])
                           fresh_state))).
Proof.
  split.
  - apply (proj1 (store_keys_invariant sample_state
                    ltac:(wf_by_computation))).
    reflexivity.
  - assert (Hwf : wf fresh_state) by wf_by_computation.
    assert (Ha : arg_ok fresh_state (Some 0)).
    { simpl. split; [lia | tauto]. }
    exact (proj1 (proj2 (store_keys_invariant fresh_state Hwf)
                   https_netloc "https://Shop.Example.com/x" None (Some 0)
                   BodyContent
                   (Some [("Set-Cookie", ["a=b; Domain=.Example.COM"])])
                   "shop.example.com" "session-1"
                   Ha eq_refl eq_refl eq_refl)).
Defined.

(** The claim C6 as it was stated fails, for either operation.  From a
    store without keys, a response to a request to [shop.example.com] whose
    Set-Cookie value declares the domain [..example.com] leaves the key
    [.example.com] in the store; and a request with one-off cookies to a
    URL whose host is [.example.com] keeps them under that very key. *)
Lemma leading_dot_key_counterexample :
  ~ (forall headers request_domain s s',
       wf s -> keys_lower s -> keys_undotted s ->
       lower request_domain = request_domain ->
       startswith request_domain "." = false ->
       _update_cookies_from_response headers request_domain s = Done tt s' ->
       keys_lower s' /\ keys_undotted s')
  /\ ~ (forall netloc url headers cookies body reply s D sid,
          wf s -> arg_ok s cookies ->
          session_id s = Some sid -> truthy sid = true ->
          _extract_domain netloc url = Ok D ->
          keys_lower s -> keys_undotted s ->
          keys_undotted
            (final (request netloc url headers cookies body reply s))).
Proof.
  split.
  - intros H.
    destruct (H [("Set-Cookie", ["a=b; Domain=..example.com"])]
                "shop.example.com" fresh_state
                (mkState [[("init", "hello")]; [("a", "b")]]
                         (Some "session-1") [(".example.com", 1)] []))
      as [_ Hdot]; try reflexivity.
    + wf_by_computation.
    + constructor.
    + constructor.
    + inversion Hdot as [|? ? Hk _]. discriminate Hk.
  - intros H.
    assert (Hdot : keys_undotted
                     (final (request https_netloc "https://.example.com/x"
                               None (Some 0) BodyContent (Some [])
                               fresh_state))).
    { apply (H https_netloc "https://.example.com/x" None (Some 0)
               BodyContent (Some []) fresh_state ".example.com" "session-1");
        try reflexivity.
      - wf_by_computation.
      - simpl. split; [lia | tauto].
      - constructor.
      - constructor. }
    inversion Hdot as [|? ? Hk _]. discriminate Hk.
Qed.

(** ** One-off cookies across requests *)

Lemma dict_get_split {V} k (v : V) d :
  dict_get k d = Some v ->
  exists pre post, d = pre ++ (k, v) :: post.
Proof.
  intros H. apply dict_get_in in H. apply in_split in H. exact H.
Qed.

(** Ingestion keeps a binding of the dict of [D] that no cookie of the
    response replaces. *)
Lemma ingest_keeps D R k v cs view :
  dict_get k (get_or_empty D view) = Some v ->
  (forall n v' d, In (n, v', d) cs -> storage_domain d R = D -> n <> k) ->
  dict_get k (get_or_empty D (fold_left (ingest_cookie R) cs view)) = Some v.
Proof.
  revert view. induction cs as [|[[n v'] d] r IH]; intros view H Hall;
    [exact H|].
  simpl. apply IH; [|intros n0 v0 d0 Hin; apply (Hall n0 v0 d0); now right].
  unfold store_put.
  destruct (String.eqb_spec (storage_domain d R) D) as [E|E].
  - rewrite E. unfold get_or_empty at 1. rewrite dict_get_set_eq.
    rewrite dict_get_set_ne; [exact H|].
    apply (Hall n v' d); [now left | exact E].
  - unfold get_or_empty at 1. rewrite dict_get_set_ne by exact E. exact H.
Qed.

Lemma startswith_app x post : startswith (x ++ post) x = true.
Proof.
  unfold startswith. induction x as [|c x IH]; simpl.
  - now destruct post.
  - destruct (ascii_dec c c) as [_|E]; [exact IH | now elim E].
Qed.

Lemma occurs_unfold x s :
  occurs x s = startswith s x
               || match s with
                  | EmptyString => false
                  | String _ r => occurs x r
                  end.
Proof. now destruct s. Qed.

(** What lies between a prefix and a suffix occurs in the string. *)
Lemma occurs_app pre x post : occurs x (pre ++ x ++ post) = true.
Proof.
  induction pre as [|c pre IH].
  - simpl append. now rewrite occurs_unfold, startswith_app.
  - simpl append. rewrite occurs_unfold, IH. apply orb_true_r.
Qed.

(** C7, as the code has it.  A request with one-off cookies to a URL with
    domain [D] leaves every one of their pairs in the dict of [D], when the
    response sets no cookie of the same name for [D].  A later request to
    [D] without cookies posts a cookie header that carries those pairs,
    provided no stored domain that comes after [D] in the store and is a
    parent domain of [D] has a cookie of the same name. *)
Theorem one_off_cookies_persist (netloc : string -> result string)
    (url1 url2 : string) (headers1 headers2 : option HeadersType)
    (cookies : option loc) (body1 body2 : BodyArg)
    (resp : dict (list string)) (reply2 : option (dict (list string)))
    (s : state) (D sid : string) :
  wf s -> arg_ok s cookies ->
  session_id s = Some sid -> truthy sid = true ->
  _extract_domain netloc url1 = Ok D ->
  _extract_domain netloc url2 = Ok D ->
  (forall raw n v d,
     In raw (set_cookie_values resp) -> In (n, v, d) (parsed raw) ->
     (if String.eqb d "" then D else d) = D ->
     ~ In n (keys (one_off s cookies))) ->
  exists s1,
    request netloc url1 headers1 cookies body1 (Some resp) s = Done resp s1
    /\ (forall k v, In (k, v) (one_off s cookies) ->
          dict_get k (get_or_empty D (store_view s1)) = Some v)
    /\ ((forall pre cm post d' cm' k,
           store_view s1 = pre ++ (D, cm) :: post ->
           In (d', cm') post -> _domain_matches d' D = true ->
           In k (keys (one_off s cookies)) -> ~ In k (keys cm')) ->
        exists sent,
          wire (final (request netloc url2 headers2 None body2 reply2 s1))
          = wire s1 ++ [sent]
          /\ p_url sent = url2
          /\ forall k v, In (k, v) (one_off s cookies) ->
               header_carries (p_headers sent) k v).
Proof.
  intros Hwf Ha Hsid Ht HD1 HD2 Hresp.
  destruct (request_run netloc url1 headers1 cookies body1 (Some resp) s D sid
              Hwf Ha Hsid Ht HD1) as (s1 & Hrun1 & Hwf1 & Hsid1 & _ & Hv1).
  exists s1. split; [exact Hrun1|].
  assert (Hstored : forall k v, In (k, v) (one_off s cookies) ->
            dict_get k (get_or_empty D (store_view s1)) = Some v).
  { intros k v Hin. rewrite Hv1. unfold ingested. apply ingest_keeps.
    - unfold persisted.
      destruct (one_off s cookies) as [|kv r] eqn:Eo; [elim Hin|].
      cbn [nonempty]. unfold get_or_empty at 1. rewrite dict_get_set_eq.
      apply dict_get_update_in; [|exact Hin].
      rewrite <- Eo. now apply one_off_valid.
    - intros n v' d Hin' Hsd ->. apply in_flat_map in Hin' as (raw & Hraw & Hp).
      apply (Hresp raw k v' d Hraw Hp).
      + unfold storage_domain in Hsd. now destruct d.
      + change k with (fst (k, v)). unfold keys. now apply in_map. }
  split; [exact Hstored|].
  intros Hshadow.
  destruct (request_run netloc url2 headers2 None body2 reply2 s1 D sid
              Hwf1 I (eq_trans Hsid1 Hsid) Ht HD2)
    as (s2 & Hrun2 & _ & _ & Hw2 & _).
  simpl one_off in Hw2. unfold persisted in Hw2. cbn [nonempty] in Hw2.
  eexists (mkPayload url2 _). split; [|split; [reflexivity|]].
  { rewrite Hrun2. destruct reply2; exact Hw2. }
  intros k v Hin. cbn [p_headers].
  set (merged := merged_for (store_view s1) [] D).
  assert (Hget : dict_get k merged = Some v).
  { specialize (Hstored k v Hin). unfold get_or_empty in Hstored.
    destruct (dict_get D (store_view s1)) as [cm|] eqn:Ecm; [|discriminate].
    destruct (dict_get_split _ _ _ Ecm) as (pre & post & Eview).
    unfold merged, merged_for. rewrite dict_update_nil, Eview, fold_left_app.
    cbn [fold_left fst snd]. unfold applies at 2. rewrite String.eqb_refl.
    cbn [orb]. rewrite merge_keep.
    - apply dict_get_update_in; [|now apply dict_get_in].
      apply (view_dict_valid s1 D cm Hwf1). rewrite Eview.
      apply in_or_app. right. now left.
    - intros d' cm' Hin' Happ. apply dict_get_none.
      apply (Hshadow pre cm post d' cm' k Eview Hin').
      + unfold applies in Happ. apply orb_true_iff in Happ as [Heq|Hm];
          [|exact Hm].
        apply String.eqb_eq in Heq. subst d'. exfalso.
        assert (Hnd : NoDup (keys (store_view s1))).
        { rewrite keys_view. apply Hwf1. }
        rewrite Eview in Hnd. unfold keys in Hnd. rewrite map_app in Hnd.
        simpl in Hnd. apply NoDup_remove_2 in Hnd. apply Hnd.
        apply in_or_app. right.
        change D with (fst (D, cm')). now apply in_map.
      + change k with (fst (k, v)). unfold keys. now apply in_map. }
  exists merged. split; [|now apply dict_get_in].
  unfold composed, cookie_entry.
  destruct merged as [|kv r]; [discriminate|]. cbn [nonempty].
  apply in_or_app. right. now left.
Qed.

Lemma one_off_cookies_persist_witness :
  exists s1 sent,
    request https_netloc "https://a.example.com/x" None (Some 0) BodyContent
      (Some [("Set-Cookie", ["sid=1; Path=/"])]) fresh_state
    = Done [("Set-Cookie", ["sid=1; Path=/"])] s1
    /\ dict_get "init" (get_or_empty "a.example.com" (store_view s1))
       = Some "hello"
    /\ wire (final (request https_netloc "https://a.example.com/y" None None
                      BodyContent None s1))
       = wire s1 ++ [sent]
    /\ header_carries (p_headers sent) "init" "hello".
Proof.
  assert (Hwf : wf fresh_state) by wf_by_computation.
  assert (Ha : arg_ok fresh_state (Some 0)).
  { simpl. split; [lia | tauto]. }
  destruct (one_off_cookies_persist https_netloc
              "https://a.example.com/x" "https://a.example.com/y"
              None None (Some 0) BodyContent BodyContent
              [("Set-Cookie", ["sid=1; Path=/"])] None
              fresh_state "a.example.com" "session-1"
              Hwf Ha eq_refl eq_refl eq_refl eq_refl)
    as (s1 & Hrun & Hstored & Hnext).
  - intros raw n v d [<-|[]] [E|[]]. injection E as <- _ _. simpl.
    intros _ [E|[]]. discriminate E.
  - assert (Hs1 : store_view s1
                  = [("a.example.com", [("init", "hello"); ("sid", "1")])]).
    { change (request https_netloc "https://a.example.com/x" None (Some 0)
                BodyContent (Some [("Set-Cookie", ["sid=1; Path=/"])])
                fresh_state)
        with (Done [("Set-Cookie", ["sid=1; Path=/"])]
                (mkState [[("init", "hello")];
                          [("init", "hello"); ("sid", "1")]]
                   (Some "session-1") [("a.example.com", 1)]
                   [mkPayload "https://a.example.com/x"
                      [("cookie", "init=hello")]])) in Hrun.
      injection Hrun as <-. reflexivity. }
    destruct Hnext as (sent & Hwire & _ & Hcarry).
    + intros pre cm post d' cm' k E Hin. rewrite Hs1 in E.
      destruct pre as [|p [|q pre]]; try discriminate E.
      injection E as _ <-. elim Hin.
    + exists s1, sent. split; [exact Hrun|].
      split; [apply Hstored; now left|].
      split; [exact Hwire|]. apply Hcarry. now left.
Defined.

(** The claim C7 as it was stated fails.  A first exchange with
    [a.example.com] leaves [z = 1] for that domain and then [init = old]
    for its parent [example.com].  A request to [a.example.com] with the
    one-off cookie [init = hello] follows, and its response sets no cookie
    at all: the dict of [a.example.com] has [init = hello].  The next
    request to [a.example.com], without cookies, posts the cookie header
    [z=1; init=old], in which [init=hello] does not occur. *)
Lemma parent_domain_shadows_counterexample :
  exists s0 s1 s2 sent,
    request https_netloc "https://a.example.com/" None None BodyContent
      (Some [("Set-Cookie", ["z=1"; "init=old; Domain=example.com"])])
      fresh_state
    = Done [("Set-Cookie", ["z=1"; "init=old; Domain=example.com"])] s0
    /\ store_view s0
       = [("a.example.com", [("z", "1")]); ("example.com", [("init", "old")])]
    /\ wf s0 /\ arg_ok s0 (Some 0)
    /\ one_off s0 (Some 0) = [("init", "hello")]
    /\ request https_netloc "https://a.example.com/x" None (Some 0)
         BodyContent (Some []) s0
       = Done [] s1
    /\ dict_get "init" (get_or_empty "a.example.com" (store_view s1))
       = Some "hello"
    /\ request https_netloc "https://a.example.com/y" None None BodyContent
         (Some []) s1
       = Done [] s2
    /\ wire s2 = wire s1 ++ [sent]
    /\ p_headers sent = [("cookie", "z=1; init=old")]
    /\ occurs "init=hello" "z=1; init=old" = false
    /\ ~ header_carries (p_headers sent) "init" "hello".
Proof.
  match eval vm_compute in
    (request https_netloc "https://a.example.com/" None None BodyContent
       (Some [("Set-Cookie", ["z=1"; "init=old; Domain=example.com"])])
       fresh_state)
  with
  | Done _ ?s0 =>
      exists s0;
      match eval vm_compute in
        (request https_netloc "https://a.example.com/x" None (Some 0)
           BodyContent (Some []) s0)
      with
      | Done _ ?s1 =>
          exists s1;
          match eval vm_compute in
            (request https_netloc "https://a.example.com/y" None None
               BodyContent (Some []) s1)
          with
          | Done _ ?s2 => exists s2
          end
      end
  end.
  exists (mkPayload "https://a.example.com/y" [("cookie", "z=1; init=old")]).
  split; [reflexivity|]. split; [reflexivity|].
  split; [wf_by_computation|]. split.
  { simpl. split; [lia|]. intros [H|[H|[]]]; discriminate H. }
  do 7 (split; [reflexivity|]).
  intros (merged & [E|[]] & Hm). injection E as E.
  apply (in_map cookie_pair) in Hm.
  destruct (in_join "; " _ _ Hm) as (pre & post & J).
  rewrite <- E in J.
  pose proof (occurs_app pre (cookie_pair ("init", "hello")) post) as O.
  rewrite <- J in O. discriminate O.
Qed.

(** ** Domain matching as an order on domains *)

Lemma lower_truthy s : truthy (lower s) = truthy s.
Proof. now destruct s. Qed.

(** When [_domain_matches] holds, in terms of the lower-cased domains. *)
Lemma domain_matches_true c r :
  _domain_matches c r = true <->
  c <> "" /\ (lower r = lower c
              \/ exists p, lower r = (p ++ "." ++ lower c)%string).
Proof.
  unfold _domain_matches. destruct c as [|x c].
  - simpl. split; [discriminate | intros [H _]; now elim H].
  - cbn [truthy negb]. cbv iota. split.
    + intros H. split; [discriminate|].
      destruct (String.eqb_spec (lower r) (lower (String x c))) as [E|E];
        [now left|].
      right. apply endswith_iff.
      destruct (endswith (lower r) ("." ++ lower (String x c))); congruence.
    + intros [_ [E|E]].
      * now rewrite E, String.eqb_refl.
      * apply endswith_iff in E. rewrite E.
        now destruct (String.eqb (lower r) (lower (String x c))).
Qed.

(** X1. [_domain_matches] does not depend on the case of either domain. *)
Theorem domain_matches_case (cookie_domain request_domain : string) :
  _domain_matches (lower cookie_domain) request_domain
  = _domain_matches cookie_domain request_domain
  /\ _domain_matches cookie_domain (lower request_domain)
     = _domain_matches cookie_domain request_domain.
Proof.
  unfold _domain_matches. now rewrite lower_truthy, !lower_idem.
Qed.

(** X2. [_domain_matches] is transitive: a cookie domain that matches a
    domain matches every domain that this one matches as a cookie domain. *)
Theorem domain_matches_trans (a b c : string) :
  _domain_matches a b = true -> _domain_matches b c = true ->
  _domain_matches a c = true.
Proof.
  intros Hab Hbc. apply domain_matches_true in Hab as [Ha Hab].
  apply domain_matches_true in Hbc as [_ Hbc].
  apply domain_matches_true. split; [exact Ha|].
  destruct Hbc as [E|[q E]]; rewrite E.
  - exact Hab.
  - right. destruct Hab as [E'|[p E']]; rewrite E'.
    + now exists q.
    + exists (q ++ "." ++ p)%string. now rewrite !append_assoc.
Qed.

Lemma domain_matches_trans_witness :
  _domain_matches "Example.com" "shop.example.COM" = true
  /\ _domain_matches "shop.example.com" "eu.SHOP.example.com" = true
  /\ _domain_matches "Example.com" "eu.SHOP.example.com" = true.
Proof.
  split; [reflexivity|]. split; [reflexivity|].
  apply (domain_matches_trans "Example.com" "shop.example.COM"
           "eu.SHOP.example.com"); reflexivity.
Defined.

(** X3. Two domains that match each other are the same up to case. *)
Theorem domain_matches_antisym (a b : string) :
  _domain_matches a b = true -> _domain_matches b a = true ->
  lower a = lower b.
Proof.
  intros Hab Hba. apply domain_matches_true in Hab as [_ Hab].
  apply domain_matches_true in Hba as [_ Hba].
  destruct Hab as [E|[p E]]; [now symmetry|].
  destruct Hba as [E'|[q E']]; [exact E'|].
  apply (f_equal String.length) in E, E'.
  rewrite !append_length in E, E'. simpl in E, E'. lia.
Qed.

Lemma domain_matches_antisym_witness :
  _domain_matches "Example.com" "example.COM" = true
  /\ _domain_matches "example.COM" "Example.com" = true
  /\ lower "Example.com" = lower "example.COM".
Proof.
  split; [reflexivity|]. split; [reflexivity|].
  apply (domain_matches_antisym "Example.com" "example.COM"); reflexivity.
Defined.

Lemma contains_app c a b :
  contains c (a ++ b) = contains c a || contains c b.
Proof.
  induction a as [|x a IH]; simpl; [reflexivity|].
  now rewrite IH, orb_assoc.
Qed.

Lemma lower_char_colon c : Ascii.eqb (lower_char c) ":" = Ascii.eqb c ":".
Proof. destruct c as [[] [] [] [] [] [] [] []]; reflexivity. Qed.

Lemma lower_char_semicolon c : Ascii.eqb (lower_char c) ";" = Ascii.eqb c ";".
Proof. destruct c as [[] [] [] [] [] [] [] []]; reflexivity. Qed.

(** Lower-casing keeps the characters that are not letters. *)
Lemma contains_lower c s :
  (forall x, Ascii.eqb (lower_char x) c = Ascii.eqb x c) ->
  contains c (lower s) = contains c s.
Proof.
  intros H. induction s as [|x s IH]; simpl; [reflexivity|].
  now rewrite H, IH.
Qed.

(** Two ways to cut one string: one cut lies inside the other part. *)
Lemma append_eq_append a b c d :
  (a ++ b = c ++ d)%string ->
  (exists m, a = (c ++ m)%string /\ d = (m ++ b)%string)
  \/ (exists m, c = (a ++ m)%string /\ b = (m ++ d)%string).
Proof.
  revert c. induction a as [|x a IH]; intros c H.
  - right. exists c. now split.
  - destruct c as [|y c].
    + left. exists (String x a). now split.
    + simpl in H. injection H as -> H.
      destruct (IH c H) as [(m & -> & ->)|(m & -> & ->)];
        [left | right]; exists m; now split.
Qed.

(** X4. A request domain with a port never matches a cookie domain without
    one: for a cookie domain without [:] and a port without [.], the domain
    [host:port] neither equals the cookie domain nor is matched by it. *)
Theorem domain_matches_port (cookie_domain host port : string) :
  contains ":" cookie_domain = false ->
  contains "." port = false ->
  String.eqb cookie_domain (host ++ ":" ++ port) = false
  /\ _domain_matches cookie_domain (host ++ ":" ++ port) = false.
Proof.
  intros Hd Hp. split.
  - apply String.eqb_neq. intros E. rewrite E, contains_app in Hd.
    simpl in Hd. rewrite orb_true_r in Hd. discriminate.
  - destruct (_domain_matches cookie_domain (host ++ ":" ++ port)) eqn:M;
      [|reflexivity].
    apply domain_matches_true in M as [_ M].
    rewrite <- (contains_lower ":" _ lower_char_colon) in Hd.
    rewrite <- (contains_lower "." _ lower_char_dot) in Hp.
    rewrite !lower_app in M. simpl lower in M.
    change (lower_char ":") with ":"%char in M.
    destruct M as [E|[p E]].
    + rewrite <- E, contains_app in Hd. simpl in Hd.
      rewrite orb_true_r in Hd. discriminate.
    + apply append_eq_append in E as [(m & _ & E)|(m & _ & E)].
      * change ("." ++ lower cookie_domain)%string
          with (String "." (lower cookie_domain)) in E.
        destruct m as [|y m]; [discriminate E|].
        simpl in E. injection E as _ E.
        rewrite E, contains_app in Hd. simpl in Hd.
        rewrite orb_true_r in Hd. discriminate.
      * destruct m as [|y m].
        -- discriminate E.
        -- simpl in E. injection E as _ E.
           rewrite E, contains_app in Hp. simpl in Hp.
           rewrite orb_true_r in Hp. discriminate.
Qed.

Lemma domain_matches_port_witness :
  String.eqb "example.com" ("example.com" ++ ":" ++ "8080") = false
  /\ _domain_matches "example.com" ("example.com" ++ ":" ++ "8080") = false.
Proof.
  apply (domain_matches_port "example.com" "example.com" "8080");
    reflexivity.
Defined.

(** ** What [_parse_set_cookie] returns *)

Lemma lstrip_head s :
  lstrip s = "" \/ exists c r, lstrip s = String c r /\ is_space c = false.
Proof.
  induction s as [|c r IH]; simpl; [now left|].
  destruct (is_space c) eqn:E; [exact IH|]. right. now exists c, r.
Qed.

Lemma lstrip_fixed c r : is_space c = false -> lstrip (String c r) = String c r.
Proof. intros H. simpl. now rewrite H. Qed.

Lemma rstrip_cons c r :
  rstrip (String c r)
  = match rstrip r with
    | EmptyString => if is_space c then EmptyString else String c EmptyString
    | r' => String c r'
    end.
Proof. reflexivity. Qed.

Lemma rstrip_idem s : rstrip (rstrip s) = rstrip s.
Proof.
  induction s as [|c r IH]; [reflexivity|].
  rewrite rstrip_cons. destruct (rstrip r) as [|c' r'] eqn:E.
  - destruct (is_space c) eqn:Ec; [reflexivity|]. simpl. now rewrite Ec.
  - rewrite rstrip_cons, IH. reflexivity.
Qed.

(** Trimming on the right keeps a first character that is not a space. *)
Lemma rstrip_head c r :
  is_space c = false -> exists r', rstrip (String c r) = String c r'.
Proof.
  intros H. rewrite rstrip_cons. destruct (rstrip r) as [|c' r'].
  - rewrite H. now exists "".
  - now exists (String c' r').
Qed.

Lemma strip_idem s : strip (strip s) = strip s.
Proof.
  unfold strip. destruct (lstrip_head s) as [E|(c & r & E & Hc)]; rewrite E.
  - reflexivity.
  - destruct (rstrip_head c r Hc) as [r' E']. rewrite E'.
    rewrite (lstrip_fixed c r' Hc), <- E'. apply rstrip_idem.
Qed.

Lemma split_no_sep sep s :
  Forall (fun p => contains sep p = false) (split sep s).
Proof.
  induction s as [|c r IH]; simpl; [now repeat constructor|].
  destruct (Ascii.eqb c sep) eqn:E; [now constructor|].
  destruct (split sep r) as [|h t]; [repeat constructor; simpl; now rewrite E|].
  inversion IH as [|? ? Hh Ht]; subst. constructor; [|exact Ht].
  simpl. now rewrite E, Hh.
Qed.

Lemma contains_sdrop c n s :
  contains c (sdrop n s) = true -> contains c s = true.
Proof.
  revert s. induction n as [|n IH]; intros [|x s] H; simpl in *; auto.
  rewrite (IH _ H). apply orb_true_r.
Qed.

Lemma contains_tail c s : contains c (tail s) = true -> contains c s = true.
Proof.
  destruct s as [|x s]; simpl; [auto|]. intros ->. apply orb_true_r.
Qed.

(** The declared domain has no [;]: it is cut out of a segment. *)
Lemma declared_domain_no_semicolon segs :
  Forall (fun p => contains ";" p = false) segs ->
  contains ";" (declared_domain segs) = false.
Proof.
  intros H. unfold declared_domain.
  destruct (find is_domain_attr segs) as [seg|] eqn:F; [|reflexivity].
  apply find_some in F as [Hin _]. rewrite Forall_forall in H.
  specialize (H seg Hin). cbv zeta.
  set (a := strip (sdrop 7 (strip seg))).
  assert (Ha : contains ";" (lower a) = false).
  { rewrite (contains_lower ";" _ lower_char_semicolon). unfold a.
    rewrite contains_strip by reflexivity.
    destruct (contains ";" (sdrop 7 (strip seg))) eqn:E; [|reflexivity].
    apply contains_sdrop in E. rewrite contains_strip in E by reflexivity.
    congruence. }
  destruct (startswith (lower a) "."); [|exact Ha].
  destruct (contains ";" (tail (lower a))) eqn:E; [|reflexivity].
  apply contains_tail in E. congruence.
Qed.

Lemma parsed_length raw : length (parsed raw) <= 1.
Proof.
  unfold parsed. destruct (split ";" raw) as [|seg0 segs]; [simpl; lia|].
  destruct (cut "=" (strip seg0)) as [[n v]|]; simpl; lia.
Qed.

Lemma parsed_shape raw n v d :
  In (n, v, d) (parsed raw) ->
  contains "=" n = false
  /\ contains ";" n = false /\ contains ";" v = false
  /\ contains ";" d = false
  /\ strip n = n /\ strip v = v /\ lower d = d.
Proof.
  unfold parsed. pose proof (split_no_sep ";" raw) as Hs.
  destruct (split ";" raw) as [|seg0 segs]; [intros []|].
  inversion Hs as [|? ? H0 Hsegs]; subst.
  destruct (cut "=" (strip seg0)) as [[a b]|] eqn:K; [|intros []].
  intros [E|[]]. injection E as <- <- <-.
  destruct (cut_some _ _ _ _ K) as [Eseg Ha].
  rewrite <- (contains_strip ";" seg0 eq_refl), Eseg, contains_app in H0.
  simpl in H0. apply orb_false_iff in H0 as [Hsa Hsb].
  rewrite !contains_strip by reflexivity.
  repeat split; auto using strip_idem, declared_domain_lower,
    declared_domain_no_semicolon.
Qed.

(** X5. [_parse_set_cookie] returns at most one cookie for each value.  In
    every cookie it returns, the name has no [=]; the name, the value and
    the domain have no [;]; the name and the value have no white space
    around them; and the domain is lower-cased. *)
Theorem parse_set_cookie_shape (set_cookie_values : list string) :
  exists cookies,
    _parse_set_cookie set_cookie_values = Ok cookies
    /\ length cookies <= length set_cookie_values
    /\ forall name value domain,
         In (name, value, domain) cookies ->
         contains "=" name = false
         /\ contains ";" name = false /\ contains ";" value = false
         /\ contains ";" domain = false
         /\ strip name = name /\ strip value = value
         /\ lower domain = domain.
Proof.
  exists (flat_map parsed set_cookie_values).
  split; [apply parse_set_cookie_spec|]. split.
  - induction set_cookie_values as [|raw r IH]; simpl; [lia|].
    rewrite length_app. pose proof (parsed_length raw). lia.
  - intros n v d Hin. apply in_flat_map in Hin as (raw & _ & Hin).
    now apply (parsed_shape raw).
Qed.

Lemma lstrip_length s : String.length (lstrip s) <= String.length s.
Proof.
  induction s as [|c r IH]; simpl; [lia|].
  destruct (is_space c); simpl; lia.
Qed.

Lemma rstrip_length s : String.length (rstrip s) <= String.length s.
Proof.
  induction s as [|c r IH]; [simpl; lia|].
  rewrite rstrip_cons. destruct (rstrip r); [destruct (is_space c)|];
    simpl in *; lia.
Qed.

(** A string that trimming leaves alone is trimmed on each side. *)
Lemma strip_fixed s : strip s = s -> lstrip s = s /\ rstrip s = s.
Proof.
  intros H. assert (Hl : lstrip s = s).
  { destruct s as [|c r]; [reflexivity|]. simpl.
    destruct (is_space c) eqn:E; [|reflexivity].
    apply (f_equal String.length) in H. unfold strip in H. simpl in H.
    rewrite E in H.
    pose proof (rstrip_length (lstrip r)). pose proof (lstrip_length r). lia. }
  split; [exact Hl|]. unfold strip in H. now rewrite Hl in H.
Qed.

Lemma split_absent sep s : contains sep s = false -> split sep s = [s].
Proof.
  induction s as [|c r IH]; simpl; [reflexivity|].
  intros H. apply orb_false_iff in H as [E H]. rewrite E, (IH H). reflexivity.
Qed.

Lemma cut_app sep a b :
  contains sep a = false -> cut sep (a ++ String sep b) = Some (a, b).
Proof.
  induction a as [|c a IH]; simpl; intros H.
  - now rewrite Ascii.eqb_refl.
  - apply orb_false_iff in H as [E H]. now rewrite E, (IH H).
Qed.

Lemma rstrip_app a b :
  rstrip b = b -> b <> "" -> rstrip (a ++ b) = (a ++ b)%string.
Proof.
  intros Hb Hne. induction a as [|c a IH]; [exact Hb|].
  simpl append. rewrite rstrip_cons, IH.
  destruct (a ++ b)%string eqn:E; [|reflexivity].
  destruct a; simpl in E; [now elim Hne | discriminate].
Qed.

Lemma lstrip_app a b :
  lstrip a = a -> a <> "" -> lstrip (a ++ b) = (a ++ b)%string.
Proof.
  intros Ha Hne. destruct a as [|c a]; [now elim Hne|].
  simpl in *. destruct (is_space c); [|reflexivity].
  apply (f_equal String.length) in Ha. simpl in Ha.
  pose proof (lstrip_length a). lia.
Qed.

(** A cookie written as [name=value] is trimmed when its parts are. *)
Lemma strip_cookie_pair n v :
  strip n = n -> strip v = v -> strip (cookie_pair (n, v)) = cookie_pair (n, v).
Proof.
  intros Hn Hv. apply strip_fixed in Hn as [Hn _]. apply strip_fixed in Hv as [_ Hv].
  unfold cookie_pair, strip. simpl fst; simpl snd.
  assert (Hr : rstrip ("=" ++ v) = ("=" ++ v)%string).
  { change ("=" ++ v)%string with (String "=" v).
    rewrite rstrip_cons, Hv. now destruct v. }
  assert (Hl : lstrip (n ++ "=" ++ v) = (n ++ "=" ++ v)%string).
  { destruct n as [|c n]; [reflexivity|]. now apply lstrip_app. }
  rewrite Hl. apply rstrip_app; [exact Hr | discriminate].
Qed.

(** X6. Parsing undoes the composer's writing of a cookie: for a trimmed
    name without [=] and [;] and a trimmed value without [;], the string
    [name=value] that goes into the cookie header parses as that name and
    value, with no domain. *)
Theorem parse_cookie_pair (name value : string) :
  strip name = name -> strip value = value ->
  contains "=" name = false ->
  contains ";" name = false -> contains ";" value = false ->
  _parse_set_cookie [cookie_pair (name, value)] = Ok [(name, value, "")].
Proof.
  intros Hn Hv Heq Hsn Hsv.
  rewrite parse_set_cookie_spec. simpl flat_map. rewrite app_nil_r.
  unfold parsed. rewrite split_absent.
  - rewrite strip_cookie_pair by assumption. unfold cookie_pair.
    simpl fst; simpl snd.
    change (name ++ "=" ++ value)%string with (name ++ String "=" value)%string.
    rewrite cut_app by exact Heq. now rewrite Hn, Hv.
  - unfold cookie_pair. simpl fst; simpl snd. rewrite !contains_app.
    simpl. now rewrite Hsn, Hsv.
Qed.

Lemma parse_cookie_pair_witness :
  _parse_set_cookie [cookie_pair ("sid", "abc=123 x")]
  = Ok [("sid", "abc=123 x", "")].
Proof.
  apply (parse_cookie_pair "sid" "abc=123 x"); reflexivity.
Defined.

Lemma find_domain_skip pre rest :
  Forall (fun p => startswith (lower (strip p)) "domain=" = false) pre ->
  find_domain (pre ++ rest) = find_domain rest.
Proof.
  induction 1 as [|p pre Hp _ IH]; [reflexivity|].
  simpl app. cbn [find_domain]. now rewrite Hp.
Qed.

(** X7. The first Domain attribute decides.  When the first segment of a
    Set-Cookie value has an [=], and [seg] is the first later segment that
    starts with [domain=] up to case, the parsed domain is the one of
    [seg]: the segments before it (Path, Secure and the like) and all the
    segments after it, further Domain attributes among them, are
    ignored. *)
Theorem first_domain_attribute_wins (raw seg0 seg : string)
    (pre post : list string) :
  split ";" raw = seg0 :: pre ++ seg :: post ->
  contains "=" seg0 = true ->
  Forall (fun p => startswith (lower (strip p)) "domain=" = false) pre ->
  startswith (lower (strip seg)) "domain=" = true ->
  exists name value domain,
    _parse_set_cookie [raw] = Ok [(name, value, domain)]
    /\ find_domain [seg] = Ok domain
    /\ find_domain (pre ++ seg :: post) = Ok domain.
Proof.
  intros Hsplit Hc Hpre Hseg.
  destruct (first_segment_cut seg0 Hc) as (n & v & Hcut & _ & _).
  exists (strip n), (strip v), (declared_domain (pre ++ seg :: post)).
  split; [|split].
  - rewrite parse_set_cookie_spec. simpl flat_map. rewrite app_nil_r.
    unfold parsed. now rewrite Hsplit, Hcut.
  - rewrite <- find_domain_spec, (find_domain_skip pre _ Hpre).
    cbn [find_domain]. rewrite Hseg.
    destruct (nth_error (split1 "=" (strip seg)) 1); reflexivity.
  - now rewrite find_domain_spec.
Qed.

Lemma first_domain_attribute_wins_witness :
  exists name value domain,
    _parse_set_cookie
      ["a=1; Path=/; Domain=first.example; Secure; Domain=second.example"]
    = Ok [(name, value, domain)]
    /\ find_domain [" Domain=first.example"] = Ok domain
    /\ find_domain [" Path=/"; " Domain=first.example"; " Secure";
                    " Domain=second.example"] = Ok domain.
Proof.
  apply (first_domain_attribute_wins
           "a=1; Path=/; Domain=first.example; Secure; Domain=second.example"
           "a=1" " Domain=first.example" [" Path=/"]
           [" Secure"; " Domain=second.example"]).
  - reflexivity.
  - reflexivity.
  - repeat constructor.
  - reflexivity.
Defined.

(** ** How [request] fails *)

Section RequestFailures.
Variable netloc : string -> result string.

Lemma request_no_session url headers cookies body reply s :
  session_id s = None \/ session_id s = Some "" ->
  request netloc url headers cookies body reply s = Fail RequestError s.
Proof.
  intros H. unfold request. rewrite bind_gets.
  now destruct H as [-> | ->].
Qed.

Lemma request_bad_url url headers cookies body reply s sid e :
  session_id s = Some sid -> truthy sid = true ->
  netloc url = Raise e ->
  request netloc url headers cookies body reply s = Fail e s.
Proof.
  intros Hs Ht He. unfold request. rewrite bind_gets, Hs, Ht.
  change (negb true) with false. cbv beta iota.
  unfold _extract_domain. now rewrite He.
Qed.

(** X8. The three ways a request fails.  Without a session ([None] or an
    empty id) it raises [RequestError] and leaves the state as it was.  An
    error of [urlparse] comes out as it is, not as [RequestError], and
    again nothing has changed.  When the remote call fails, the request
    raises [RequestError] after the fact: the one-off cookies are already
    in the store under the request domain, and the payload has been
    posted. *)
Theorem request_failures (url : string) (headers : option HeadersType)
    (cookies : option loc) (body : BodyArg) (s : state) :
  wf s -> arg_ok s cookies ->
  (forall reply,
     session_id s = None \/ session_id s = Some "" ->
     request netloc url headers cookies body reply s = Fail RequestError s)
  /\ (forall reply sid e,
        session_id s = Some sid -> truthy sid = true ->
        netloc url = Raise e ->
        request netloc url headers cookies body reply s = Fail e s)
  /\ (forall sid D,
        session_id s = Some sid -> truthy sid = true ->
        netloc url = Ok D ->
        exists s' sent,
          request netloc url headers cookies body None s
          = Fail RequestError s'
          /\ wire s' = wire s ++ [sent]
          /\ p_url sent = url
          /\ store_view s'
             = (if nonempty (one_off s cookies)
                then dict_set (lower D)
                       (dict_update (get_or_empty (lower D) (store_view s))
                                    (one_off s cookies))
                       (store_view s)
                else store_view s)
          /\ forall k v, In (k, v) (one_off s cookies) ->
               dict_get k (get_or_empty (lower D) (store_view s')) = Some v).
Proof.
  intros Hwf Ha. split; [|split].
  - intros reply H. now apply request_no_session.
  - intros reply sid e Hs Ht He. now apply (request_bad_url _ _ _ _ _ _ sid).
  - intros sid D Hs Ht HD.
    assert (HD' : _extract_domain netloc url = Ok (lower D)).
    { unfold _extract_domain. now rewrite HD. }
    destruct (request_run netloc url headers cookies body None s (lower D) sid
                Hwf Ha Hs Ht HD') as (s' & Hrun & _ & _ & Hw & Hv).
    cbv zeta in Hw. eexists s', (mkPayload url _).
    split; [exact Hrun|]. split; [exact Hw|]. split; [reflexivity|].
    split; [exact Hv|].
    intros k v Hin. rewrite Hv. unfold persisted.
    destruct (one_off s cookies) as [|kv r] eqn:Eo; [elim Hin|].
    cbn [nonempty]. unfold get_or_empty at 1. rewrite dict_get_set_eq.
    apply dict_get_update_in; [|exact Hin].
    rewrite <- Eo. now apply one_off_valid.
Qed.

End RequestFailures.

Lemma request_failures_witness :
  request https_netloc "https://a.example.com/x" None (Some 0) BodyJson None
    (mkState [[("init", "hello")]] None [] [])
  = Fail RequestError (mkState [[("init", "hello")]] None [] [])
  /\ exists s' sent,
       request https_netloc "https://A.Example.com/x" None (Some 0) BodyJson
         None fresh_state
       = Fail RequestError s'
       /\ wire s' = wire fresh_state ++ [sent]
       /\ p_url sent = "https://A.Example.com/x"
       /\ dict_get "init" (get_or_empty "a.example.com" (store_view s'))
          = Some "hello".
Proof.
  split.
  - apply (proj1 (request_failures https_netloc "https://a.example.com/x"
                    None (Some 0) BodyJson
                    (mkState [[("init", "hello")]] None [] [])
                    ltac:(wf_by_computation)
                    ltac:(simpl; split; [lia | tauto]))).
    now left.
  - destruct (proj2 (proj2 (request_failures https_netloc
                              "https://A.Example.com/x" None (Some 0) BodyJson
                              fresh_state ltac:(wf_by_computation)
                              ltac:(simpl; split; [lia | tauto])))
                "session-1" "A.Example.com" eq_refl eq_refl eq_refl)
      as (s' & sent & H1 & H2 & H3 & _ & H5).
    exists s', sent. split; [exact H1|]. split; [exact H2|].
    split; [exact H3|]. apply H5. now left.
Defined.

(** ** What ingestion changes and what it keeps *)

Lemma lookup_store_put_same D n v view :
  dict_get n (get_or_empty D (store_put D n v view)) = Some v.
Proof. apply store_put_binding. Qed.

(** [store_put] touches one name of one domain. *)
Lemma lookup_store_put_other D n v D' n' view :
  D' <> D \/ n' <> n ->
  dict_get n' (get_or_empty D' (store_put D n v view))
  = dict_get n' (get_or_empty D' view).
Proof.
  intros H. unfold store_put.
  destruct (String.eqb_spec D D') as [<-|E].
  - unfold get_or_empty at 1. rewrite dict_get_set_eq.
    apply dict_get_set_ne. destruct H as [H|H]; congruence.
  - unfold get_or_empty at 1. now rewrite dict_get_set_ne.
Qed.

Lemma lookup_store_put_present D n v D' n' view :
  dict_get n' (get_or_empty D' view) <> None ->
  dict_get n' (get_or_empty D' (store_put D n v view)) <> None.
Proof.
  intros H.
  destruct (String.eqb_spec D' D) as [->|E].
  - destruct (String.eqb_spec n' n) as [->|E'].
    + rewrite lookup_store_put_same. discriminate.
    + rewrite lookup_store_put_other by now right. exact H.
  - rewrite lookup_store_put_other by now left. exact H.
Qed.

Lemma ingest_frame R D n cs view :
  (forall n' v' d, In (n', v', d) cs ->
     storage_domain d R <> D \/ n' <> n) ->
  dict_get n (get_or_empty D (fold_left (ingest_cookie R) cs view))
  = dict_get n (get_or_empty D view).
Proof.
  revert view. induction cs as [|[[n' v'] d] r IH]; intros view H;
    [reflexivity|].
  simpl. rewrite IH by (intros n0 v0 d0 Hin; apply (H n0 v0 d0); now right).
  apply lookup_store_put_other.
  destruct (H n' v' d (or_introl eq_refl)) as [E|E]; [left | right]; congruence.
Qed.

Lemma ingest_present R D n cs view :
  dict_get n (get_or_empty D view) <> None ->
  dict_get n (get_or_empty D (fold_left (ingest_cookie R) cs view)) <> None.
Proof.
  revert view. induction cs as [|[[n' v'] d] r IH]; intros view H; [exact H|].
  simpl. apply IH. now apply lookup_store_put_present.
Qed.

(** The cookies a response yields, as [_parse_set_cookie] returns them for
    its Set-Cookie headers in turn. *)
Lemma parsed_of_response headers :
  _parse_set_cookie (set_cookie_values headers)
  = Ok (flat_map parsed (set_cookie_values headers)).
Proof. apply parse_set_cookie_spec. Qed.

(** X9. Ingestion touches only what the response names: a cookie name
    under a stored domain keeps its value, or stays absent, unless a
    cookie of the response has that name and is stored under that
    domain. *)
Theorem ingestion_frame (headers : dict (list string))
    (request_domain : string) (s : state) (D n : string) :
  wf s ->
  (forall cs n' v' d,
     _parse_set_cookie (set_cookie_values headers) = Ok cs ->
     In (n', v', d) cs ->
     (if truthy d then d else request_domain) <> D \/ n' <> n) ->
  exists s',
    _update_cookies_from_response headers request_domain s = Done tt s'
    /\ dict_get n (get_or_empty D (store_view s'))
       = dict_get n (get_or_empty D (store_view s)).
Proof.
  intros Hwf H.
  destruct (update_cookies_run headers request_domain s Hwf)
    as (s' & Hrun & _ & _ & Hv).
  exists s'. split; [exact Hrun|]. rewrite Hv. unfold ingested.
  apply ingest_frame. intros n' v' d Hin.
  exact (H _ n' v' d (parsed_of_response headers) Hin).
Qed.

Lemma ingestion_frame_witness :
  exists s',
    _update_cookies_from_response
      [("Set-Cookie", ["x=7; Domain=domain.com"; "q=1"])]
      "shop.domain.com" sample_state = Done tt s'
    /\ dict_get "x" (get_or_empty "shop.domain.com" (store_view s'))
       = dict_get "x" (get_or_empty "shop.domain.com" (store_view sample_state)).
Proof.
  apply (ingestion_frame [("Set-Cookie", ["x=7; Domain=domain.com"; "q=1"])]
           "shop.domain.com" sample_state "shop.domain.com" "x").
  - wf_by_computation.
  - intros cs n' v' d E. injection E as <-.
    intros [H|[H|[]]]; injection H as <- _ <-; simpl.
    + left. discriminate.
    + right. discriminate.
Defined.

(** X10. The last Set-Cookie wins: when the cookies of a response are
    [pre], then [(n, v, d)], then [post], and no cookie of [post] has the
    name [n] and the same storage domain, the store has [n = v] under that
    domain after ingestion. *)
Theorem last_set_cookie_wins (headers : dict (list string))
    (request_domain : string) (s : state)
    (pre post : list (string * string * string)) (n v d : string) :
  wf s ->
  _parse_set_cookie (set_cookie_values headers) = Ok (pre ++ (n, v, d) :: post) ->
  (forall n' v' d', In (n', v', d') post ->
     (if truthy d' then d' else request_domain)
     <> (if truthy d then d else request_domain)
     \/ n' <> n) ->
  exists s',
    _update_cookies_from_response headers request_domain s = Done tt s'
    /\ dict_get n (get_or_empty (if truthy d then d else request_domain)
                                (store_view s'))
       = Some v.
Proof.
  intros Hwf Hparse Hpost.
  destruct (update_cookies_run headers request_domain s Hwf)
    as (s' & Hrun & _ & _ & Hv).
  exists s'. split; [exact Hrun|]. rewrite Hv. unfold ingested.
  rewrite parsed_of_response in Hparse. injection Hparse as ->.
  rewrite fold_left_app. cbn [fold_left].
  rewrite ingest_frame by exact Hpost.
  apply lookup_store_put_same.
Qed.

Lemma last_set_cookie_wins_witness :
  exists s',
    _update_cookies_from_response
      [("Set-Cookie", ["t=1"; "u=5"; "t=2; Path=/"])] "api.example.com"
      sample_state = Done tt s'
    /\ dict_get "t" (get_or_empty "api.example.com" (store_view s'))
       = Some "2".
Proof.
  apply (last_set_cookie_wins
           [("Set-Cookie", ["t=1"; "u=5"; "t=2; Path=/"])] "api.example.com"
           sample_state [("t", "1", ""); ("u", "5", "")] [] "t" "2" "").
  - wf_by_computation.
  - reflexivity.
  - intros n' v' d' [].
Defined.

Lemma dict_get_update_present {V} k (d o : dict V) :
  dict_get k d <> None -> dict_get k (dict_update d o) <> None.
Proof.
  revert d. induction o as [|[k' v'] r IH]; intros d H; [exact H|].
  rewrite dict_update_cons. apply IH.
  destruct (String.eqb_spec k' k) as [->|E].
  - now rewrite dict_get_set_eq.
  - now rewrite dict_get_set_ne.
Qed.

Lemma persisted_present D oneoff D' n view :
  dict_get n (get_or_empty D' view) <> None ->
  dict_get n (get_or_empty D' (persisted D oneoff view)) <> None.
Proof.
  intros H. unfold persisted. destruct (nonempty oneoff); [|exact H].
  destruct (String.eqb_spec D D') as [<-|E].
  - unfold get_or_empty at 1. rewrite dict_get_set_eq.
    now apply dict_get_update_present.
  - unfold get_or_empty at 1. now rewrite dict_get_set_ne.
Qed.

(** X11. The store never forgets: whatever a request does and however it
    ends, every cookie name that a domain had before it still has a value
    under that domain after it.  No Set-Cookie value (an empty value,
    Max-Age=0, a past Expires) removes a cookie. *)
Theorem request_never_removes (netloc : string -> result string)
    (url : string) (headers : option HeadersType) (cookies : option loc)
    (body : BodyArg) (reply : option (dict (list string))) (s : state)
    (D n : string) :
  wf s -> arg_ok s cookies ->
  dict_get n (get_or_empty D (store_view s)) <> None ->
  dict_get n
    (get_or_empty D
       (store_view (final (request netloc url headers cookies body reply s))))
  <> None.
Proof.
  intros Hwf Ha H.
  destruct (session_id s) as [sid|] eqn:Hs.
  2:{ now rewrite request_no_session by now left. }
  destruct (truthy sid) eqn:Ht.
  2:{ destruct sid; [|discriminate]. now rewrite request_no_session by now right. }
  destruct (netloc url) as [h|e] eqn:Hn.
  2:{ now rewrite (request_bad_url netloc url _ _ _ _ s sid e Hs Ht Hn). }
  assert (HD : _extract_domain netloc url = Ok (lower h)).
  { unfold _extract_domain. now rewrite Hn. }
  destruct (request_run netloc url headers cookies body reply s (lower h) sid
              Hwf Ha Hs Ht HD) as (s' & Hrun & _ & _ & _ & Hv).
  rewrite Hrun.
  assert (Hfin : final (match reply with
                        | Some r => Done r s'
                        | None => Fail RequestError s'
                        end) = s') by now destruct reply.
  rewrite Hfin, Hv. destruct reply as [r|].
  - unfold ingested. apply ingest_present. now apply persisted_present.
  - now apply persisted_present.
Qed.

Lemma request_never_removes_witness :
  dict_get "x"
    (get_or_empty "domain.com"
       (store_view
          (final (request https_netloc "https://shop.domain.com/" None
                    (Some 2) BodyContent
                    (Some [("Set-Cookie",
                            ["x=; Domain=domain.com; Max-Age=0"])])
                    sample_state))))
  <> None.
Proof.
  apply (request_never_removes https_netloc "https://shop.domain.com/" None
           (Some 2) BodyContent
           (Some [("Set-Cookie", ["x=; Domain=domain.com; Max-Age=0"])])
           sample_state "domain.com" "x").
  - wf_by_computation.
  - simpl. split; [lia|]. intros [H|[H|[]]]; discriminate H.
  - discriminate.
Defined.

(** ** Composing twice, and the content type *)

Lemma filter_within {A} (f g : A -> bool) l :
  (forall x, f x = true -> g x = true) ->
  filter f (filter g l) = filter f l.
Proof.
  intros H. induction l as [|x r IH]; simpl; [reflexivity|].
  destruct (g x) eqn:G; simpl.
  - now rewrite IH.
  - destruct (f x) eqn:F; [|exact IH]. rewrite (H x F) in G. discriminate.
Qed.

Lemma filter_apart {A} (f g : A -> bool) l :
  (forall x, g x = true -> f x = false) ->
  filter f (filter g l) = [].
Proof.
  intros H. induction l as [|x r IH]; simpl; [reflexivity|].
  destruct (g x) eqn:G; simpl; [|exact IH]. now rewrite (H x G).
Qed.

Lemma priority_not_ordinary kv :
  named "priority" kv = true -> ordinary kv = false.
Proof. unfold ordinary. intros ->. apply andb_false_r. Qed.

Lemma ordinary_not_priority kv :
  ordinary kv = true -> named "priority" kv = false.
Proof.
  unfold ordinary. intros H. apply andb_true_iff in H as [_ H].
  now destruct (named "priority" kv).
Qed.

Lemma ordinary_composed hl m :
  filter ordinary (composed hl m) = filter ordinary hl.
Proof.
  unfold composed. rewrite !filter_app.
  rewrite (filter_within ordinary ordinary) by auto.
  rewrite (filter_apart ordinary (named "priority"))
    by apply priority_not_ordinary.
  assert (Hc : filter ordinary (cookie_entry m) = []).
  { unfold cookie_entry. now destruct (nonempty m). }
  rewrite Hc. now rewrite !app_nil_r.
Qed.

Lemma priority_composed hl m :
  filter (named "priority") (composed hl m) = filter (named "priority") hl.
Proof.
  unfold composed. rewrite !filter_app.
  rewrite (filter_within (named "priority") (named "priority")) by auto.
  rewrite (filter_apart (named "priority") ordinary)
    by apply ordinary_not_priority.
  assert (Hc : filter (named "priority") (cookie_entry m) = []).
  { unfold cookie_entry. now destruct (nonempty m). }
  now rewrite Hc.
Qed.

(** Composing a composed list with the same cookies changes nothing. *)
Lemma composed_idem hl m : composed (composed hl m) m = composed hl m.
Proof.
  unfold composed at 1. now rewrite ordinary_composed, priority_composed.
Qed.

(** X12. The composer is idempotent: given its own output as the headers,
    with the same cookies, domain and store, [_prepare_headers] returns
    that output again; its cookie entry is replaced by an equal one and
    nothing moves. *)
Theorem prepare_headers_idempotent (headers : option HeadersType)
    (cookies : option loc) (domain : string) (s : state) :
  closed s -> readable s cookies ->
  exists out,
    _prepare_headers headers cookies domain s = Done out s
    /\ _prepare_headers (Some (HList out)) cookies domain s = Done out s.
Proof.
  intros Hc Hr. eexists. split; [now apply prepare_headers_run|].
  rewrite prepare_headers_run by assumption. simpl headers_list.
  now rewrite composed_idem.
Qed.

Lemma prepare_headers_idempotent_witness :
  exists out,
    _prepare_headers
      (Some (HList [("Priority", "u=1"); ("Cookie", "stale"); ("Accept", "*/*")]))
      (Some 2) "shop.domain.com" sample_state = Done out sample_state
    /\ _prepare_headers (Some (HList out)) (Some 2) "shop.domain.com"
         sample_state = Done out sample_state.
Proof.
  apply (prepare_headers_idempotent
           (Some (HList [("Priority", "u=1"); ("Cookie", "stale");
                         ("Accept", "*/*")]))
           (Some 2) "shop.domain.com" sample_state).
  - repeat constructor.
  - simpl. lia.
Defined.

Lemma content_type_ordinary kv :
  named "content-type" kv = true -> ordinary kv = true.
Proof.
  unfold ordinary, named. intros H. apply String.eqb_eq in H. now rewrite H.
Qed.

Lemma content_type_composed hl m :
  filter (named "content-type") (composed hl m)
  = filter (named "content-type") hl.
Proof.
  unfold composed. rewrite !filter_app.
  rewrite (filter_within (named "content-type") ordinary)
    by apply content_type_ordinary.
  rewrite (filter_apart (named "content-type") (named "priority")).
  2:{ intros kv H. unfold named in *. apply String.eqb_eq in H. now rewrite H. }
  assert (Hc : filter (named "content-type") (cookie_entry m) = []).
  { unfold cookie_entry. now destruct (nonempty m). }
  rewrite Hc. now rewrite !app_nil_r.
Qed.

Lemma existsb_filter {A} (f : A -> bool) l :
  existsb f l = negb (length (filter f l) =? 0).
Proof.
  induction l as [|x r IH]; simpl; [reflexivity|].
  destruct (f x); simpl; [reflexivity | exact IH].
Qed.

Lemma content_type_added_count body hl :
  length (filter (named "content-type") (content_type_added body hl))
  = match body with
    | BodyContent => length (filter (named "content-type") hl)
    | _ => Nat.max 1 (length (filter (named "content-type") hl))
    end.
Proof.
  unfold content_type_added.
  change (fun kv : string * string => String.eqb (lower (fst kv)) "content-type")
    with (named "content-type").
  rewrite existsb_filter.
  destruct (length (filter (named "content-type") hl)) as [|k] eqn:E;
    destruct body; simpl; rewrite ?filter_app, ?length_app, ?E; simpl; lia.
Qed.

Section ContentType.
Variable netloc : string -> result string.

(** X13. The content type of a request.  With a JSON or form body the
    payload posted has a [content-type] header: the caller's, as many as
    were given, or else exactly one that the client adds.  With any other
    body the client adds none.  Whether the remote call then succeeds does
    not matter. *)
Theorem request_content_type (url : string) (headers : option HeadersType)
    (cookies : option loc) (body : BodyArg)
    (reply : option (dict (list string))) (s : state) (D sid : string) :
  wf s -> arg_ok s cookies ->
  session_id s = Some sid -> truthy sid = true ->
  _extract_domain netloc url = Ok D ->
  exists sent,
    wire (final (request netloc url headers cookies body reply s))
    = wire s ++ [sent]
    /\ length (filter (fun kv => String.eqb (lower (fst kv)) "content-type")
                      (p_headers sent))
       = match body with
         | BodyContent =>
             length (filter (fun kv =>
                               String.eqb (lower (fst kv)) "content-type")
                            (headers_list headers))
         | _ =>
             Nat.max 1
               (length (filter (fun kv =>
                                  String.eqb (lower (fst kv)) "content-type")
                               (headers_list headers)))
         end.
Proof.
  intros Hwf Ha Hs Ht HD.
  destruct (request_run netloc url headers cookies body reply s D sid
              Hwf Ha Hs Ht HD) as (s' & Hrun & _ & _ & Hw & _).
  cbv zeta in Hw. eexists (mkPayload url _). split.
  - rewrite Hrun. destruct reply; exact Hw.
  - cbn [p_headers].
    change (fun kv : string * string =>
              String.eqb (lower (fst kv)) "content-type")
      with (named "content-type").
    rewrite content_type_composed. apply content_type_added_count.
Qed.

End ContentType.

Lemma request_content_type_witness :
  exists sent,
    wire (final (request https_netloc "https://a.example.com/x"
                   (Some (HDict [("Accept", "*/*")])) (Some 0) BodyJson None
                   fresh_state))
    = wire fresh_state ++ [sent]
    /\ length (filter (fun kv => String.eqb (lower (fst kv)) "content-type")
                      (p_headers sent))
       = 1.
Proof.
  apply (request_content_type https_netloc "https://a.example.com/x"
           (Some (HDict [("Accept", "*/*")])) (Some 0) BodyJson None
           fresh_state "a.example.com" "session-1").
  - wf_by_computation.
  - simpl. split; [lia | tauto].
  - reflexivity.
  - reflexivity.
  - reflexivity.
Defined.

(** ** What the client owns and what it leaves alone *)

Section RequestFrame.
Variable netloc : string -> result string.

(** A request that gets as far as the remote call: the state it leaves is
    well formed, and the dicts the store did not own are as they were. *)
Lemma request_preserved url headers cookies body reply s D sid :
  wf s -> arg_ok s cookies ->
  session_id s = Some sid -> truthy sid = true ->
  _extract_domain netloc url = Ok D ->
  exists s',
    final (request netloc url headers cookies body reply s) = s'
    /\ wf s'
    /\ length (heap s) <= length (heap s')
    /\ forall c, c < length (heap s) -> ~ In c (store_locs s) ->
         nth_error (heap s') c = nth_error (heap s) c
         /\ ~ In c (store_locs s').
Proof.
  intros Hwf Ha Hsid Ht HD.
  unfold request. rewrite bind_gets, Hsid, Ht.
  change (negb true) with false. cbv beta iota. rewrite HD, bind_lift_ok.
  destruct (persist_cookies_run D cookies s Hwf Ha)
    as (s1 & Hrun1 & Hwf1 & Hp1 & _).
  rewrite (bind_done _ _ _ _ _ Hrun1).
  destruct (arg_ok_preserved s s1 cookies Ha Hp1) as [Ha1 _].
  rewrite (bind_done _ _ _ _ _
    (prepare_headers_run _ cookies D s1 (wf_closed _ Hwf1)
       (arg_ok_readable _ _ Ha1))).
  unfold try_request_error. rewrite bind_modify.
  destruct Hp1 as (_ & _ & Hlen1 & Hkeep1).
  match goal with
  | |- context [with_wire ?w s1] => set (s1w := with_wire w s1)
  end.
  destruct reply as [r|].
  - destruct (update_cookies_run r D s1w (wf_with_wire _ _ Hwf1))
      as (s2 & Hrun2 & Hwf2 & (_ & _ & Hlen2 & Hkeep2) & _).
    rewrite (bind_done _ _ _ _ _ Hrun2). unfold ret. cbn [final].
    exists s2. split; [reflexivity|]. split; [exact Hwf2|].
    change (heap s1w) with (heap s1) in *.
    change (store_locs s1w) with (store_locs s1) in *.
    split; [lia|]. intros c Hc Hn.
    destruct (Hkeep1 c Hc Hn) as [E1 N1].
    destruct (Hkeep2 c) as [E2 N2]; [lia | exact N1 |].
    split; [congruence | exact N2].
  - unfold raise. cbn [final]. exists s1w. split; [reflexivity|].
    split; [exact (wf_with_wire _ _ Hwf1)|].
    split; [exact Hlen1 | exact Hkeep1].
Qed.

(** X14. A request leaves alone every dict that is not the store's: the
    caller's cookies dict and any dict a getter has returned keep their
    entries, and none of them becomes a dict of the store, which copies
    the one-off cookies it keeps.  This holds however the request ends. *)
Theorem request_leaves_other_dicts (url : string)
    (headers : option HeadersType) (cookies : option loc) (body : BodyArg)
    (reply : option (dict (list string))) (s : state) (c : loc) :
  wf s -> arg_ok s cookies ->
  c < length (heap s) -> ~ In c (store_locs s) ->
  let s' := final (request netloc url headers cookies body reply s) in
  nth_error (heap s') c = nth_error (heap s) c
  /\ ~ In c (store_locs s').
Proof.
  intros Hwf Ha Hc Hn s'. unfold s'. clear s'.
  destruct (session_id s) as [sid|] eqn:Hs.
  2:{ rewrite request_no_session by now left. now split. }
  destruct (truthy sid) eqn:Ht.
  2:{ destruct sid; [|discriminate].
      rewrite request_no_session by now right. now split. }
  destruct (netloc url) as [h|e] eqn:Hl.
  2:{ rewrite (request_bad_url netloc url _ _ _ _ s sid e Hs Ht Hl).
      now split. }
  assert (HD : _extract_domain netloc url = Ok (lower h)).
  { unfold _extract_domain. now rewrite Hl. }
  destruct (request_preserved url headers cookies body reply s (lower h) sid
              Hwf Ha Hs Ht HD) as (s' & -> & _ & _ & Hkeep).
  now apply Hkeep.
Qed.

(** The extension of the heap by dicts with distinct names keeps a state
    well formed. *)
Lemma wf_heap_app s extra :
  wf s -> Forall (fun d : CookieMap => NoDup (keys d)) extra ->
  wf (with_heap (heap s ++ extra) s).
Proof.
  intros (Hk & Hnd & Hal & Hv) He. unfold wf, store_locs. simpl.
  repeat split; auto.
  - eapply Forall_impl; [|exact Hal]. simpl. intros a Hlt.
    rewrite length_app. lia.
  - apply Forall_app. now split.
Qed.

Lemma get_or_empty_valid s D : wf s -> NoDup (keys (get_or_empty D (store_view s))).
Proof.
  intros Hwf. unfold get_or_empty.
  destruct (dict_get D (store_view s)) as [cm|] eqn:E; [|constructor].
  apply dict_get_in in E. now apply (view_dict_valid s D cm).
Qed.

(** X15. Every operation of the client keeps the state well formed: the
    domains of the store are distinct, each has a dict of its own in the
    heap, and no dict has a name twice.  This holds for a request however
    it ends, for response ingestion, and for the two getters. *)
Theorem client_keeps_well_formed (s : state) :
  wf s ->
  (forall url headers cookies body reply,
     arg_ok s cookies ->
     wf (final (request netloc url headers cookies body reply s)))
  /\ (forall headers request_domain,
        wf (final (_update_cookies_from_response headers request_domain s)))
  /\ (forall domain, wf (final (get_cookies_for_domain domain s)))
  /\ wf (final (cookies s)).
Proof.
  intros Hwf. split; [|split; [|split]].
  - intros url headers cookies body reply Ha.
    destruct (session_id s) as [sid|] eqn:Hs.
    2:{ now rewrite request_no_session by now left. }
    destruct (truthy sid) eqn:Ht.
    2:{ destruct sid; [|discriminate].
        now rewrite request_no_session by now right. }
    destruct (netloc url) as [h|e] eqn:Hl.
    2:{ now rewrite (request_bad_url netloc url _ _ _ _ s sid e Hs Ht Hl). }
    assert (HD : _extract_domain netloc url = Ok (lower h)).
    { unfold _extract_domain. now rewrite Hl. }
    destruct (request_preserved url headers cookies body reply s (lower h) sid
                Hwf Ha Hs Ht HD) as (s' & -> & Hwf' & _).
    exact Hwf'.
  - intros headers R.
    destruct (update_cookies_run headers R s Hwf) as (s' & -> & Hwf' & _).
    exact Hwf'.
  - intros domain.
    rewrite get_cookies_for_domain_run by now apply wf_closed.
    cbn [final]. apply wf_heap_app; [exact Hwf|].
    repeat constructor. now apply get_or_empty_valid.
  - pose proof (copy_loop (_cookies s) [] s (wf_closed s Hwf)) as Hrun.
    rewrite (Hrun : cookies s = _). cbn [final].
    apply wf_heap_app; [exact Hwf|].
    apply Forall_forall. intros d Hd. apply in_map_iff in Hd as ([k l] & <- & Hin).
    apply (view_dict_valid s k _ Hwf). unfold store_view.
    apply in_map_iff. now exists (k, l).
Qed.

End RequestFrame.

Lemma request_leaves_other_dicts_witness :
  let s' := final (request https_netloc "https://shop.domain.com/" None
                     (Some 2) BodyContent
                     (Some [("Set-Cookie", ["x=7"; "n=1; Domain=new.example"])])
                     sample_state) in
  nth_error (heap s') 2 = nth_error (heap sample_state) 2
  /\ ~ In 2 (store_locs s').
Proof.
  apply (request_leaves_other_dicts https_netloc "https://shop.domain.com/"
           None (Some 2) BodyContent
           (Some [("Set-Cookie", ["x=7"; "n=1; Domain=new.example"])])
           sample_state 2).
  - wf_by_computation.
  - simpl. split; [lia|]. intros [H|[H|[]]]; discriminate H.
  - simpl. lia.
  - intros [H|[H|[]]]; discriminate H.
Defined.

Lemma client_keeps_well_formed_witness :
  wf (final (request https_netloc "https://shop.domain.com/" None (Some 2)
               BodyData (Some [("Set-Cookie", ["x=7"])]) sample_state))
  /\ wf (final (cookies sample_state)).
Proof.
  destruct (client_keeps_well_formed https_netloc sample_state
              ltac:(wf_by_computation)) as (H1 & _ & _ & H4).
  split; [|exact H4].
  apply H1. simpl. split; [lia|]. intros [H|[H|[]]]; discriminate H.
Defined.

(** ** Bodies in hex *)

Lemma hex_digit_facts n :
  n < 16 ->
  digit_value (hex_digit n) = n
  /\ ascii_space (hex_digit n) = false
  /\ contains (hex_digit n) "0123456789abcdef" = true.
Proof.
  intros H.
  do 16 (destruct n as [|n]; [now vm_compute|]). lia.
Qed.

Lemma nat_of_byte_bounded b : nat_of_byte b < 256.
Proof. apply nat_ascii_bounded. Qed.

Lemma byte_of_nat_of_byte b : byte_of_nat (nat_of_byte b) = b.
Proof.
  unfold byte_of_nat, nat_of_byte.
  now rewrite ascii_nat_embedding, byte_of_ascii_of_byte.
Qed.

Lemma nat_of_byte_of_nat n : n < 256 -> nat_of_byte (byte_of_nat n) = n.
Proof.
  intros H. unfold byte_of_nat, nat_of_byte.
  rewrite ascii_of_byte_of_ascii. now apply nat_ascii_embedding.
Qed.

Lemma hex_cons x r :
  hex (x :: r)
  = String (hex_digit (nat_of_byte x / 16))
      (String (hex_digit (nat_of_byte x mod 16)) (hex r)).
Proof. reflexivity. Qed.

Lemma fromhex_pair c c' r :
  ascii_space c = false -> digit_value c < 16 -> digit_value c' < 16 ->
  fromhex (String c (String c' r))
  = match fromhex r with
    | Ok bs => Ok (byte_of_nat (16 * digit_value c + digit_value c') :: bs)
    | Raise e => Raise e
    end.
Proof.
  intros Hs Hc Hc'. cbn [fromhex]. rewrite Hs.
  destruct (Nat.leb_spec 16 (digit_value c)); [lia|].
  destruct (Nat.leb_spec 16 (digit_value c')); [lia|]. reflexivity.
Qed.

(** Reading hex undoes writing it. *)
Lemma fromhex_hex b : fromhex (hex b) = Ok b.
Proof.
  induction b as [|x r IH]; [reflexivity|].
  pose proof (nat_of_byte_bounded x) as Hx.
  assert (H1 : nat_of_byte x / 16 < 16) by (apply Nat.Div0.div_lt_upper_bound; lia).
  assert (H2 : nat_of_byte x mod 16 < 16) by (apply Nat.mod_upper_bound; lia).
  destruct (hex_digit_facts _ H1) as (D1 & S1 & _).
  destruct (hex_digit_facts _ H2) as (D2 & _ & _).
  rewrite hex_cons, fromhex_pair by (rewrite ?D1, ?D2; assumption).
  rewrite IH, D1, D2, <- Nat.div_mod_eq. now rewrite byte_of_nat_of_byte.
Qed.

Section ContentFacts.
Variable J : Type.
Variable json_dumps : J -> string.

Lemma prepare_content_hex content :
  _prepare_content J json_dumps content = hex (body_bytes J json_dumps content).
Proof. now destruct content. Qed.

(** X16. The body round trip: what [_prepare_content] writes, the body
    decoding of [request] reads back without raising, and it gets the
    bytes of the body: none for [None], the UTF-8 bytes of the text or of
    the JSON text, or the bytes given. *)
Theorem body_round_trip (content : ContentType J) :
  decode_body (_prepare_content J json_dumps content)
  = Ok (match content with
        | ContentNone => []
        | ContentDict j => utf8 (json_dumps j)
        | ContentStr s => utf8 s
        | ContentBytes b => b
        end).
Proof.
  rewrite prepare_content_hex. unfold decode_body.
  change (match content with
          | ContentNone => []
          | ContentDict j => utf8 (json_dumps j)
          | ContentStr s => utf8 s
          | ContentBytes b => b
          end) with (body_bytes J json_dumps content).
  destruct (body_bytes J json_dumps content) as [|x r]; [reflexivity|].
  rewrite hex_cons. cbn [truthy]. rewrite <- hex_cons. apply fromhex_hex.
Qed.

Lemma hex_length b : String.length (hex b) = 2 * length b.
Proof. induction b as [|x r IH]; simpl; [reflexivity|]. rewrite IH. lia. Qed.

Lemma hex_alphabet b :
  Forall (fun c => contains c "0123456789abcdef" = true)
         (list_ascii_of_string (hex b)).
Proof.
  induction b as [|x r IH]; [constructor|].
  pose proof (nat_of_byte_bounded x) as Hx.
  rewrite hex_cons. cbn [list_ascii_of_string].
  constructor; [|constructor; [|exact IH]].
  - apply hex_digit_facts. apply Nat.Div0.div_lt_upper_bound. lia.
  - apply hex_digit_facts. apply Nat.mod_upper_bound. lia.
Qed.

Lemma utf8_nil s : utf8 s = [] <-> s = "".
Proof.
  destruct s as [|c r]; [tauto|]. simpl. unfold utf8_char.
  split; [|discriminate]. destruct (nat_of_ascii c <? 128); discriminate.
Qed.

(** X17. What [_prepare_content] writes: two characters for each byte of
    the body, all of them lower-case hex digits; and the empty string, so
    that [request] puts no body in the payload, exactly when the body has
    no bytes: for [None], for the empty text and for no bytes. *)
Theorem prepare_content_shape (content : ContentType J) :
  String.length (_prepare_content J json_dumps content)
  = 2 * length (body_bytes J json_dumps content)
  /\ Forall (fun c => contains c "0123456789abcdef" = true)
       (list_ascii_of_string (_prepare_content J json_dumps content))
  /\ (truthy (_prepare_content J json_dumps content) = false <->
      match content with
      | ContentNone => True
      | ContentDict j => json_dumps j = ""
      | ContentStr s => s = ""
      | ContentBytes b => b = []
      end).
Proof.
  rewrite prepare_content_hex.
  split; [apply hex_length|]. split; [apply hex_alphabet|].
  assert (Hh : forall b, truthy (hex b) = false <-> b = []).
  { intros [|x r]; [tauto|]. rewrite hex_cons. split; discriminate. }
  rewrite Hh. destruct content; simpl; try tauto; apply utf8_nil.
Qed.

End ContentFacts.

Lemma byte_of_nat_inj n m :
  n < 256 -> m < 256 -> byte_of_nat n = byte_of_nat m -> n = m.
Proof.
  intros Hn Hm E. apply (f_equal nat_of_byte) in E.
  now rewrite !nat_of_byte_of_nat in E.
Qed.

Lemma nat_of_ascii_inj c c' : nat_of_ascii c = nat_of_ascii c' -> c = c'.
Proof.
  intros E. apply (f_equal ascii_of_nat) in E.
  now rewrite !ascii_nat_embedding in E.
Qed.

(** The UTF-8 bytes of a character tell the character and where it ends. *)
Lemma utf8_char_inj c c' r r' :
  utf8_char c ++ r = utf8_char c' ++ r' -> c = c' /\ r = r'.
Proof.
  unfold utf8_char.
  pose proof (nat_ascii_bounded c) as Hc.
  pose proof (nat_ascii_bounded c') as Hc'.
  set (n := nat_of_ascii c) in *. set (n' := nat_of_ascii c') in *.
  assert (Hd : n / 64 < 4) by (apply Nat.Div0.div_lt_upper_bound; lia).
  assert (Hd' : n' / 64 < 4) by (apply Nat.Div0.div_lt_upper_bound; lia).
  assert (Hm : n mod 64 < 64) by (apply Nat.mod_upper_bound; lia).
  assert (Hm' : n' mod 64 < 64) by (apply Nat.mod_upper_bound; lia).
  pose proof (Nat.div_mod_eq n 64) as En.
  pose proof (Nat.div_mod_eq n' 64) as En'.
  generalize dependent (n / 64). generalize dependent (n mod 64).
  generalize dependent (n' / 64). generalize dependent (n' mod 64).
  intros m' Hm' q' Hd' En' m Hm q Hd En.
  destruct (Nat.ltb_spec n 128), (Nat.ltb_spec n' 128); cbn [app]; intros E.
  - injection E as E ->. apply byte_of_nat_inj in E; [|lia..].
    split; [now apply nat_of_ascii_inj | reflexivity].
  - injection E as E _. apply byte_of_nat_inj in E; lia.
  - injection E as E _. apply byte_of_nat_inj in E; lia.
  - injection E as E1 E2 ->.
    apply byte_of_nat_inj in E1; [|lia..].
    apply byte_of_nat_inj in E2; [|lia..].
    split; [|reflexivity]. apply nat_of_ascii_inj. fold n n'. lia.
Qed.

Lemma utf8_inj s t : utf8 s = utf8 t -> s = t.
Proof.
  revert t. induction s as [|c s IH]; intros [|c' t] E.
  - reflexivity.
  - symmetry in E. apply utf8_nil in E. discriminate.
  - apply utf8_nil in E. discriminate.
  - simpl in E. apply utf8_char_inj in E as [-> E]. f_equal. now apply IH.
Qed.

Lemma hex_inj b b' : hex b = hex b' -> b = b'.
Proof.
  intros E. apply (f_equal fromhex) in E. rewrite !fromhex_hex in E.
  now injection E.
Qed.

(** X18. The encoding of a body loses nothing: two texts with the same
    [_prepare_content] are the same text, and so for two byte strings. *)
Theorem prepare_content_injective (J : Type) (json_dumps : J -> string) :
  (forall s t : string,
     _prepare_content J json_dumps (ContentStr s)
     = _prepare_content J json_dumps (ContentStr t) -> s = t)
  /\ (forall b b' : list Byte.byte,
        _prepare_content J json_dumps (ContentBytes b)
        = _prepare_content J json_dumps (ContentBytes b') -> b = b').
Proof.
  split.
  - intros s t E. apply utf8_inj. now apply hex_inj.
  - intros b b' E. now apply hex_inj.
Qed.

Lemma prepare_content_injective_witness :
  _prepare_content unit (fun _ => "null") (ContentStr "a=1")
  = _prepare_content unit (fun _ => "null") (ContentStr "a=1")
  /\ "a=1" = "a=1"
  /\ [byte_of_nat 0; byte_of_nat 255] = [byte_of_nat 0; byte_of_nat 255].
Proof.
  split; [reflexivity|]. split.
  - apply (proj1 (prepare_content_injective unit (fun _ => "null"))).
    reflexivity.
  - apply (proj2 (prepare_content_injective unit (fun _ => "null"))).
    reflexivity.
Defined.

(** ** The answer of the remote service *)

Lemma final_bind {A B C} (m : M A) (k1 : A -> M B) (k2 : A -> M C) s :
  (forall a s', final (k1 a s') = final (k2 a s')) ->
  final (bind m k1 s) = final (bind m k2 s).
Proof. intros H. unfold bind. destruct (m s); [apply H | reflexivity]. Qed.

Lemma final_try {A} (m : M A) s : final (try_request_error m s) = final (m s).
Proof. unfold try_request_error. now destruct (m s). Qed.

Section Answer.
Variable netloc : string -> result string.

(** [request_response] acts on the state as [request] does. *)
Lemma request_response_final url headers cookies body data s :
  final (request_response netloc url headers cookies body data s)
  = final (request netloc url headers cookies body (reply_of data) s).
Proof.
  unfold request_response, request. rewrite !bind_gets.
  destruct (negb _); [reflexivity|].
  apply final_bind. intros D s1. apply final_bind. intros _ s2.
  apply final_bind. intros prepared s3. rewrite !final_try.
  apply final_bind. intros _ s4.
  destruct data as [d|]; [|reflexivity]. unfold reply_of, receive.
  destruct (ans_success d); [|reflexivity]. cbn [negb]. cbv iota.
  destruct (ans_response d) as [rd|]; cbn [rd_headers rd_body rd_status_code];
    apply final_bind; intros _ s5;
    (destruct (decode_body _); reflexivity).
Qed.

(** A request whose remote call gets a [success] answer. *)
Lemma request_response_run url headers cookies body rd s D sid :
  wf s -> arg_ok s cookies ->
  session_id s = Some sid -> truthy sid = true ->
  _extract_domain netloc url = Ok D ->
  let hs := response_headers
              (match rd_headers rd with Some h => h | None => [] end) in
  let status := match rd_status_code rd with Some c => c | None => 0%Z end in
  exists s',
    final (request netloc url headers cookies body (Some hs) s) = s'
    /\ request_response netloc url headers cookies body
         (Some (mkAnswer true (Some rd))) s
       = match decode_body (match rd_body rd with Some b => b | None => "" end)
         with
         | Ok bytes => Done (mkResponse status hs bytes) s'
         | Raise _ => Fail RequestError s'
         end.
Proof.
  intros Hwf Ha Hsid Ht HD hs status.
  unfold request_response, request. rewrite !bind_gets, Hsid, Ht.
  change (negb true) with false. cbv beta iota. rewrite HD, !bind_lift_ok.
  destruct (persist_cookies_run D cookies s Hwf Ha)
    as (s1 & Hrun1 & Hwf1 & Hp1 & _).
  rewrite !(bind_done _ _ _ _ _ Hrun1).
  destruct (arg_ok_preserved s s1 cookies Ha Hp1) as [Ha1 _].
  rewrite !(bind_done _ _ _ _ _
    (prepare_headers_run _ cookies D s1 (wf_closed _ Hwf1)
       (arg_ok_readable _ _ Ha1))).
  unfold try_request_error. rewrite !bind_modify.
  match goal with
  | |- context [with_wire ?w s1] => set (s1w := with_wire w s1)
  end.
  destruct (update_cookies_run hs D s1w (wf_with_wire _ _ Hwf1))
    as (s2 & Hrun2 & _).
  exists s2. rewrite (bind_done _ _ _ _ _ Hrun2). split; [reflexivity|].
  unfold receive. cbn [ans_success ans_response negb]. cbv iota.
  fold hs. rewrite (bind_done _ _ _ _ _ Hrun2).
  destruct (decode_body _); reflexivity.
Qed.

(** X19. A response whose body is not hex makes [request] raise
    [RequestError], but only after its cookies are in the store: the
    state is the one that the same request leaves when the body can be
    read. *)
Theorem bad_body_keeps_cookies (url : string) (headers : option HeadersType)
    (cookies : option loc) (body : BodyArg) (rd : response_data) (s : state)
    (D sid body_hex : string) (e : exn) :
  wf s -> arg_ok s cookies ->
  session_id s = Some sid -> truthy sid = true ->
  _extract_domain netloc url = Ok D ->
  rd_body rd = Some body_hex ->
  truthy body_hex = true -> fromhex body_hex = Raise e ->
  let hs := response_headers
              (match rd_headers rd with Some h => h | None => [] end) in
  exists s',
    request_response netloc url headers cookies body
      (Some (mkAnswer true (Some rd))) s
    = Fail RequestError s'
    /\ store_view s'
       = ingested D hs (persisted D (one_off s cookies) (store_view s))
    /\ forall n v d post,
         _parse_set_cookie (set_cookie_values hs) = Ok (post ++ [(n, v, d)]) ->
         dict_get n (get_or_empty (if truthy d then d else D) (store_view s'))
         = Some v.
Proof.
  intros Hwf Ha Hsid Ht HD Hb Hne He hs.
  destruct (request_response_run url headers cookies body rd s D sid
              Hwf Ha Hsid Ht HD) as (s' & Hfin & Hrun).
  fold hs in Hfin.
  destruct (request_run netloc url headers cookies body (Some hs) s D sid
              Hwf Ha Hsid Ht HD) as (s2 & Hrun2 & _ & _ & _ & Hv).
  rewrite Hrun2 in Hfin. cbn [final] in Hfin. subst s2.
  exists s'. split; [|split; [exact Hv|]].
  - rewrite Hrun, Hb. unfold decode_body. now rewrite Hne, He.
  - intros n v d post Hparse. rewrite Hv. unfold ingested.
    rewrite parsed_of_response in Hparse. injection Hparse as ->.
    rewrite fold_left_app. cbn [fold_left]. apply lookup_store_put_same.
Qed.

(** X20. The status of a response is no error of [request].  For a
    [success] answer whose body can be read, [request] returns the
    response with the status it was given, 0 when there is none, whatever
    that status is; [raise_for_status] then raises exactly from 400 on,
    and what it raises carries the response. *)
Theorem status_is_returned (url : string) (headers : option HeadersType)
    (cookies : option loc) (body : BodyArg) (rd : response_data) (s : state)
    (D sid : string) (bytes : list Byte.byte) :
  wf s -> arg_ok s cookies ->
  session_id s = Some sid -> truthy sid = true ->
  _extract_domain netloc url = Ok D ->
  decode_body (match rd_body rd with Some b => b | None => "" end)
  = Ok bytes ->
  exists r s',
    request_response netloc url headers cookies body
      (Some (mkAnswer true (Some rd))) s
    = Done r s'
    /\ status_code r
       = match rd_status_code rd with Some c => c | None => 0%Z end
    /\ content r = bytes
    /\ raise_for_status r
       = (if (400 <=? status_code r)%Z then HTTPStatusError r else StatusOk)
    /\ ((status_code r < 400)%Z -> raise_for_status r = StatusOk)
    /\ ((400 <= status_code r)%Z -> raise_for_status r = HTTPStatusError r).
Proof.
  intros Hwf Ha Hsid Ht HD Hb.
  destruct (request_response_run url headers cookies body rd s D sid
              Hwf Ha Hsid Ht HD) as (s' & _ & Hrun).
  rewrite Hb in Hrun. eexists _, s'. split; [exact Hrun|].
  cbn [status_code content]. split; [reflexivity|]. split; [reflexivity|].
  unfold raise_for_status. cbn [status_code].
  split; [reflexivity|]. split; intros H.
  - destruct (Z.leb_spec 400 (match rd_status_code rd with
                              | Some c => c | None => 0%Z end));
      [lia | reflexivity].
  - destruct (Z.leb_spec 400 (match rd_status_code rd with
                              | Some c => c | None => 0%Z end));
      [reflexivity | lia].
Qed.

End Answer.

Lemma bad_body_keeps_cookies_witness :
  exists s',
    request_response https_netloc "https://a.example.com/x" None (Some 0)
      BodyContent
      (Some (mkAnswer true
               (Some (mkResponseData (Some 200%Z)
                        (Some [("Set-Cookie", Some ["sid=7; Path=/"])])
                        (Some "4a6")))))
      fresh_state
    = Fail RequestError s'
    /\ dict_get "sid" (get_or_empty "a.example.com" (store_view s'))
       = Some "7".
Proof.
  destruct (bad_body_keeps_cookies https_netloc "https://a.example.com/x"
              None (Some 0) BodyContent
              (mkResponseData (Some 200%Z)
                 (Some [("Set-Cookie", Some ["sid=7; Path=/"])])
                 (Some "4a6"))
              fresh_state "a.example.com" "session-1" "4a6" ValueError
              ltac:(wf_by_computation) ltac:(simpl; split; [lia | tauto])
              eq_refl eq_refl eq_refl eq_refl eq_refl eq_refl)
    as (s' & H1 & _ & H3).
  exists s'. split; [exact H1|].
  exact (H3 "sid" "7" "" [] eq_refl).
Defined.

Lemma status_is_returned_witness :
  exists r s',
    request_response https_netloc "https://a.example.com/x" None None
      BodyContent
      (Some (mkAnswer true
               (Some (mkResponseData (Some 404%Z) None (Some "6e6f")))))
      fresh_state
    = Done r s'
    /\ status_code r = 404%Z
    /\ content r = [byte_of_nat 110; byte_of_nat 111]
    /\ raise_for_status r = HTTPStatusError r.
Proof.
  destruct (status_is_returned https_netloc "https://a.example.com/x"
              None None BodyContent
              (mkResponseData (Some 404%Z) None (Some "6e6f"))
              fresh_state "a.example.com" "session-1"
              [byte_of_nat 110; byte_of_nat 111]
              ltac:(wf_by_computation) I eq_refl eq_refl eq_refl eq_refl)
    as (r & s' & H1 & H2 & H3 & _ & _ & H6).
  exists r, s'. split; [exact H1|]. split; [exact H2|]. split; [exact H3|].
  apply H6. rewrite H2. cbn. discriminate.
Defined.

(** ** The life of a session *)

Lemma close_run o s :
  close o s
  = Done tt (if match session_id s with Some i => truthy i | None => false end
             then with_session None s else s).
Proof.
  unfold close. rewrite bind_gets.
  destruct (match session_id s with Some i => truthy i | None => false end);
    [|reflexivity].
  now destruct o.
Qed.

Lemma close_session o s s' :
  close o s = Done tt s' ->
  session_id s' = None \/ session_id s' = Some "".
Proof.
  rewrite close_run. intros [= <-].
  destruct (session_id s) as [[|c i]|] eqn:E; cbn; auto.
Qed.

Lemma close_frame o s s' :
  close o s = Done tt s' ->
  heap s' = heap s /\ _cookies s' = _cookies s /\ wire s' = wire s.
Proof.
  rewrite close_run. intros [= <-].
  now destruct (match session_id s with Some i => truthy i | None => false end).
Qed.

Section Lifecycle.
Variable netloc : string -> result string.

(** X21. [close] never fails, whatever the call that deletes the remote
    session does.  It leaves the cookie store, the dicts and what has been
    sent as they are, a second [close] changes nothing, and until a new
    session is made every request is refused with [RequestError] before
    anything is stored or sent. *)
Theorem closed_client_refuses (o o' : option exn) (s : state) :
  exists s',
    close o s = Done tt s'
    /\ heap s' = heap s /\ _cookies s' = _cookies s /\ wire s' = wire s
    /\ close o' s' = Done tt s'
    /\ forall url headers cookies body reply,
         request netloc url headers cookies body reply s'
         = Fail RequestError s'.
Proof.
  destruct (close o s) as [[] s'|e s'] eqn:Hc;
    [|rewrite close_run in Hc; discriminate].
  exists s'. split; [reflexivity|].
  destruct (close_frame _ _ _ Hc) as (Hh & Hk & Hw).
  pose proof (close_session _ _ _ Hc) as Hs.
  repeat split; try assumption.
  - rewrite close_run. now destruct Hs as [-> | ->].
  - intros. now apply request_no_session.
Qed.

(** X22. The cookies outlive the session.  When a client with a readable
    store is closed and a new session is made, the headers composed for a
    request are those composed before, the new session id is the one
    given, and the store is the same. *)
Theorem new_session_keeps_cookies (o : option exn) (sid : string)
    (headers : option HeadersType) (cookies : option loc) (D : string)
    (s : state) :
  closed s -> readable s cookies ->
  exists s1 s2 prepared,
    close o s = Done tt s1
    /\ _create_session (mkSessionAnswer true (Some (Some sid))) s1
       = Done tt s2
    /\ session_id s2 = Some sid
    /\ store_view s2 = store_view s
    /\ _prepare_headers headers cookies D s = Done prepared s
    /\ _prepare_headers headers cookies D s2 = Done prepared s2.
Proof.
  intros Hc Hr.
  destruct (close o s) as [[] s1|e s1] eqn:Hc1;
    [|rewrite close_run in Hc1; discriminate].
  destruct (close_frame _ _ _ Hc1) as (Hh & Hk & _).
  exists s1, (with_session (Some sid) s1). eexists.
  split; [reflexivity|]. split; [reflexivity|]. split; [reflexivity|].
  assert (Hv : store_view (with_session (Some sid) s1) = store_view s).
  { unfold store_view. cbn [heap _cookies with_session]. now rewrite Hh, Hk. }
  split; [exact Hv|].
  split; [now apply prepare_headers_run|].
  rewrite prepare_headers_run.
  - rewrite Hv. destruct cookies as [c|]; [|reflexivity].
    unfold one_off. cbn [heap with_session]. now rewrite Hh.
  - unfold closed, store_locs. cbn [heap _cookies with_session].
    now rewrite Hh, Hk.
  - destruct cookies as [c|]; [|exact I].
    unfold readable. cbn [heap with_session]. now rewrite Hh.
Qed.

(** X23. What the creation of a session leaves behind.  A refused
    creation raises [RequestError] and an answer without the id raises
    [KeyError], and both keep the state, so that a session the client had
    is still there.  An answer whose id is null or empty is taken: the
    creation returns, and every request after it is refused. *)
Theorem create_session_edges (s : state) :
  (forall id, _create_session (mkSessionAnswer false id) s
              = Fail RequestError s)
  /\ _create_session (mkSessionAnswer true None) s = Fail KeyError s
  /\ forall id, id = None \/ id = Some "" ->
       exists s',
         _create_session (mkSessionAnswer true (Some id)) s = Done tt s'
         /\ session_id s' = id
         /\ store_view s' = store_view s
         /\ forall url headers cookies body reply,
              request netloc url headers cookies body reply s'
              = Fail RequestError s'.
Proof.
  split; [reflexivity|]. split; [reflexivity|].
  intros id Hid. exists (with_session id s).
  split; [reflexivity|]. split; [reflexivity|]. split; [reflexivity|].
  intros. apply request_no_session. cbn [session_id with_session].
  destruct Hid as [-> | ->]; auto.
Qed.

End Lifecycle.

Lemma new_session_keeps_cookies_witness :
  exists s1 s2 prepared,
    close (Some RequestError) sample_state = Done tt s1
    /\ _create_session (mkSessionAnswer true (Some (Some "session-2"))) s1
       = Done tt s2
    /\ session_id s2 = Some "session-2"
    /\ store_view s2 = store_view sample_state
    /\ _prepare_headers None (Some 2) "shop.domain.com" sample_state
       = Done prepared sample_state
    /\ _prepare_headers None (Some 2) "shop.domain.com" s2 = Done prepared s2.
Proof.
  apply (new_session_keeps_cookies (Some RequestError) "session-2" None
           (Some 2) "shop.domain.com" sample_state).
  - repeat constructor.
  - cbv. lia.
Defined.

Lemma create_session_edges_witness :
  exists s',
    _create_session (mkSessionAnswer true (Some (Some ""))) sample_state
    = Done tt s'
    /\ session_id s' = Some ""
    /\ store_view s' = store_view sample_state
    /\ request https_netloc "https://shop.domain.com/" None None BodyContent
         (Some []) s'
       = Fail RequestError s'.
Proof.
  destruct (proj2 (proj2 (create_session_edges https_netloc sample_state))
              (Some "") (or_intror eq_refl))
    as (s' & H1 & H2 & H3 & H4).
  exists s'. split; [exact H1|]. split; [exact H2|]. split; [exact H3|].
  apply H4.
Defined.
